(** * Nearest 256-colour palette entry: rdb/colour_conv.c and rdb/evil_colour.c

    A shallow embedding of the three RGB -> palette-index matchers of the
    PuTTY tree ([PuTTY_256], [XTerm_256], [choose_XTterm256]) and of the
    colour-space code they rest on, followed by the properties of the
    specification that concern them.

    C [int] is 32 bits wide and is carried by [Z]; every arithmetic operator
    re-normalises its result into the signed 32-bit range.  C [double] is
    IEEE-754 binary64 and is carried by the kernel's primitive [float]; C
    [float] is binary32 and is carried by [spec_float] at precision 24.
    Every floating-point operation is rounded to the type of its operands
    (FLT_EVAL_METHOD 0, as on x86-64 and AArch64).  The routines of <math.h>
    that are not exact IEEE operations are parameters of the model. *)

From Stdlib Require Import ZArith Lia List Bool Floats.
Import ListNotations.

Local Open Scope Z_scope.

(** ** 32-bit signed integer arithmetic *)

Declare Scope cint_scope.
Delimit Scope cint_scope with cint.

Module Cint.

(** The type of C [int] values; its operators live in [cint_scope]. *)
Definition t : Type := Z.
Bind Scope cint_scope with t.

Definition min_int : Z := - 2 ^ 31.
Definition max_int : Z := 2 ^ 31 - 1.

(** Two's-complement reduction into [min_int .. max_int]. *)
Definition wrap (z : Z) : t := (z + 2 ^ 31) mod 2 ^ 32 - 2 ^ 31.

Definition in_range (z : Z) : Prop := min_int <= z <= max_int.

Definition add (a b : t) : t := wrap (Z.add a b).
Definition sub (a b : t) : t := wrap (Z.sub a b).
Definition mul (a b : t) : t := wrap (Z.mul a b).
(** C division truncates towards zero; [%] takes the sign of the dividend. *)
Definition div (a b : t) : t := wrap (Z.quot a b).
Definition rem (a b : t) : t := wrap (Z.rem a b).
(** [abs] of <stdlib.h>. *)
Definition abs (a : t) : t := wrap (Z.abs a).

End Cint.

Infix "+" := Cint.add : cint_scope.
Infix "-" := Cint.sub : cint_scope.
Infix "*" := Cint.mul : cint_scope.
Infix "/" := Cint.div : cint_scope.
Infix "%%" := Cint.rem (at level 40, left associativity) : cint_scope.

(** ** Counted loops

    [for (c = lo; c < lo + n; c++) body] over a state [S]: the loop variable is
    read by the body and never written by it. *)

Fixpoint for_loop {S : Type} (n : nat) (c : Z) (body : Z -> S -> S) (st : S) : S :=
  match n with
  | O => st
  | Datatypes.S n' => for_loop n' (c + 1) body (body c st)
  end.

(** ** rdb/colour_conv.c *)

(** [nearest_static = 16 + nb + ng * 6 + nr * 36;] *)
Definition cube_index (nr ng nb : Z) : Z := (16 + nb + ng * 6 + nr * 36)%cint.

(** [nr = (r-36)/40; if (nr == 0) nr = (r+47)/95;], the statement repeated
    for each of the three channels. *)
Definition cube_coord (v : Z) : Z :=
  let n := ((v - 36) / 40)%cint in
  if n =? 0 then ((v + 47) / 95)%cint else n.

(** The condition of the grey-axis [if]. *)
Definition grey_test (r g b nr ng nb : Z) : bool :=
  ((Cint.abs (r - g)%cint <? 20) && (Cint.abs (g - b)%cint <? 20)
     && (Cint.abs (b - r)%cint <? 20))
  || ((nr =? ng) && (ng =? nb)).

(** [tw = (r+g+b)/3;] *)
Definition grey_tw (r g b : Z) : Z := ((r + g + b) / 3)%cint.

(** [nw = 232 + (tw-4)/10; if (nw > 255) nw = 255;] *)
Definition grey_nw (tw : Z) : Z :=
  let nw := (232 + (tw - 4) / 10)%cint in
  if nw >? 255 then 255 else nw.

(** The three assignments to [tc] followed by [tc /= 3;]. *)
Definition grey_tc (nr ng nb : Z) : Z :=
  let tc := if nr =? 0 then 0 else (nr * 40 + 55)%cint in
  let tc := if ng =? 0 then 0 else (ng * 40 + 55)%cint in
  let tc := if nb =? 0 then 0 else (nb * 40 + 55)%cint in
  (tc / 3)%cint.

(** [tg = (nw-232) * 10 + 8;] *)
Definition grey_tg (nw : Z) : Z := ((nw - 232) * 10 + 8)%cint.

(** [static int PuTTY_256(int r, int g, int b)], statement by statement. *)
Definition PuTTY_256 (r g b : Z) : Z :=
  let nr := ((r - 36) / 40)%cint in
  let nr := if nr =? 0 then ((r + 47) / 95)%cint else nr in
  let ng := ((g - 36) / 40)%cint in
  let ng := if ng =? 0 then ((g + 47) / 95)%cint else ng in
  let nb := ((b - 36) / 40)%cint in
  let nb := if nb =? 0 then ((b + 47) / 95)%cint else nb in
  let nearest_static := (16 + nb + ng * 6 + nr * 36)%cint in
  if ((Cint.abs (r - g)%cint <? 20) && (Cint.abs (g - b)%cint <? 20)
        && (Cint.abs (b - r)%cint <? 20))
     || ((nr =? ng) && (ng =? nb))
  then
    let tw := ((r + g + b) / 3)%cint in
    let nw := (232 + (tw - 4) / 10)%cint in
    let nw := if nw >? 255 then 255 else nw in
    let tc := if nr =? 0 then 0 else (nr * 40 + 55)%cint in
    let tc := if ng =? 0 then 0 else (ng * 40 + 55)%cint in
    let tc := if nb =? 0 then 0 else (nb * 40 + 55)%cint in
    let tc := (tc / 3)%cint in
    let tg := ((nw - 232) * 10 + 8)%cint in
    if ((tc - tw) * (tc - tw))%cint >=? ((tg - tw) * (tg - tw))%cint
    then nw
    else nearest_static
  else nearest_static.

(** The quantities of the grey-axis branch as functions of the input:
    whether the branch is entered, and the two squared distances its last
    [if] compares. *)
Definition grey_fires (r g b : Z) : bool :=
  grey_test r g b (cube_coord r) (cube_coord g) (cube_coord b).

Definition cube_sq_dist (r g b : Z) : Z :=
  let tc := grey_tc (cube_coord r) (cube_coord g) (cube_coord b) in
  let tw := grey_tw r g b in
  ((tc - tw) * (tc - tw))%cint.

Definition grey_sq_dist (r g b : Z) : Z :=
  let tw := grey_tw r g b in
  let tg := grey_tg (grey_nw tw) in
  ((tg - tw) * (tg - tw))%cint.

(** The loop state shared by the two exhaustive searches. *)
Record search_state : Type := mk_search
  { best_diff : Z;
    nearest_static : Z }.

(** [int best_diff = -1; int nearest_static = 0;] *)
Definition search_init : search_state :=
  {| best_diff := -1; nearest_static := 0 |}.

(** The colour of palette entry [c] as the loops compute it:
    [i = c-16] and the two arms of [if (c<232)]. *)
Definition palette_rgb (c : Z) : Z * Z * Z :=
  let i := (c - 16)%cint in
  if c <? 232 then
    let nr := (i / 36)%cint in
    let ng := ((i / 6) %% 6)%cint in
    let nb := (i %% 6)%cint in
    let nr := if nr =? 0 then 0 else (nr * 40 + 55)%cint in
    let ng := if ng =? 0 then 0 else (ng * 40 + 55)%cint in
    let nb := if nb =? 0 then 0 else (nb * 40 + 55)%cint in
    (nr, ng, nb)
  else
    let i := (i - 216)%cint in
    let v := (i * 10 + 8)%cint in
    (v, v, v).

(** [nr = i / 36; ng = (i / 6) % 6; nb = i % 6;] with [i = c-16]. *)
Definition cube_decode (c : Z) : Z * Z * Z :=
  let i := (c - 16)%cint in
  ((i / 36)%cint, ((i / 6) %% 6)%cint, (i %% 6)%cint).

(** The three [d = n - x; this_diff += d*d;] statements of [XTerm_256]. *)
Definition XTerm_this_diff (r g b c : Z) : Z :=
  let '(nr, ng, nb) := palette_rgb c in
  let this_diff := 0 in
  let d := (nr - r)%cint in let this_diff := (this_diff + d * d)%cint in
  let d := (ng - g)%cint in let this_diff := (this_diff + d * d)%cint in
  let d := (nb - b)%cint in let this_diff := (this_diff + d * d)%cint in
  this_diff.

(** [if (best_diff<0 || best_diff>this_diff) { nearest_static = c;
    best_diff = this_diff; }] *)
Definition search_step (this_diff : Z) (c : Z) (st : search_state) : search_state :=
  if (best_diff st <? 0) || (best_diff st >? this_diff)
  then {| best_diff := this_diff; nearest_static := c |}
  else st.

(** One iteration of the loop of [XTerm_256]. *)
Definition XTerm_256_body (r g b : Z) (c : Z) (st : search_state) : search_state :=
  let i := (c - 16)%cint in
  let '(nr, ng, nb) :=
    if c <? 232 then
      let nr := (i / 36)%cint in
      let ng := ((i / 6) %% 6)%cint in
      let nb := (i %% 6)%cint in
      let nr := if nr =? 0 then 0 else (nr * 40 + 55)%cint in
      let ng := if ng =? 0 then 0 else (ng * 40 + 55)%cint in
      let nb := if nb =? 0 then 0 else (nb * 40 + 55)%cint in
      (nr, ng, nb)
    else
      let i := (i - 216)%cint in
      let v := (i * 10 + 8)%cint in
      (v, v, v) in
  let this_diff := 0 in
  let d := (nr - r)%cint in let this_diff := (this_diff + d * d)%cint in
  let d := (ng - g)%cint in let this_diff := (this_diff + d * d)%cint in
  let d := (nb - b)%cint in let this_diff := (this_diff + d * d)%cint in
  if (best_diff st <? 0) || (best_diff st >? this_diff)
  then {| best_diff := this_diff; nearest_static := c |}
  else st.

(** [static int XTerm_256(int r, int g, int b)]:
    [for(c=16; c<256; c++) ...; return nearest_static;] *)
Definition XTerm_256 (r g b : Z) : Z :=
  nearest_static (for_loop 240 16 (XTerm_256_body r g b) search_init).

(** ** Floating point *)

(** C [float]: IEEE-754 binary32, round to nearest even, as [spec_float]
    values at precision 24. *)
Module Cfloat.

Definition prec : Z := 24.
Definition emax : Z := 128.

(** Conversion of a [double] argument to [float]. *)
Definition of_double (x : float) : spec_float :=
  match Prim2SF x with
  | S754_finite s m e => binary_round prec emax s m e
  | y => y
  end.

(** Conversion of a [float] to [double]; every binary32 value is a
    binary64 value. *)
Definition to_double (x : spec_float) : float := SF2Prim x.

(** Conversion of an [int] operand to [float]. *)
Definition of_int (z : Z) : spec_float := binary_normalize prec emax z 0 false.

Definition div (x y : spec_float) : spec_float := SFdiv prec emax x y.

(** [roundf] of <math.h>: the nearest integral value, halfway cases away
    from zero. *)
Definition roundf (x : spec_float) : spec_float :=
  match x with
  | S754_finite s m e =>
      if 0 <=? e then x
      else
        let unit := 2 ^ (- e) in
        let q := Zpos m / unit in
        let r := Zpos m mod unit in
        let n := if 2 * r >=? unit then q + 1 else q in
        binary_normalize prec emax (cond_Zopp s n) 0 s
  | _ => x
  end.

End Cfloat.

(** C [double] conversions to and from [int]. *)
Module Cdouble.

Definition of_int (z : Z) : float := SF2Prim (binary_normalize 53 1024 z 0 false).

(** Conversion to [int] discards the fractional part.  A value that does
    not fit, an infinity or a NaN has no defined result in C; the model
    returns the "integer indefinite" value [INT_MIN] that the x86
    conversion instruction produces. *)
Definition to_int (x : float) : Z :=
  match Prim2SF x with
  | S754_zero _ => 0
  | S754_finite s m e =>
      let mag := if 0 <=? e then Zpos m * 2 ^ e else Zpos m / 2 ^ (- e) in
      let z := cond_Zopp s mag in
      if (Cint.min_int <=? z) && (z <=? Cint.max_int) then z else Cint.min_int
  | _ => Cint.min_int
  end.

End Cdouble.

(** The routines of <math.h> whose results the C standard does not fix bit
    for bit.  [sqrt] and [fabs] are exact IEEE operations and are taken from
    [PrimFloat]. *)
Record libm : Type := mk_libm
  { pow : float -> float -> float;
    atan2 : float -> float -> float;
    sin : float -> float;
    cos : float -> float;
    exp : float -> float }.

(** ** rdb/evil_colour.c *)

Record labcolour : Type := mk_lab { lab_L : float; lab_a : float; lab_b : float }.
Record xyzcolour : Type := mk_xyz { xyz_X : float; xyz_Y : float; xyz_Z : float }.

(** [#define pi 3.141592653589793238462643383279] *)
Definition pi : float := 3.141592653589793238462643383279%float.

Section EvilColour.

Variable m : libm.

Local Open Scope float_scope.

(** [struct xyzcolour sRGB_to_xyz(int cR, int cG, int cB)], the [#if 1]
    matrix. *)
Definition sRGB_to_xyz (cR cG cB : Z) : xyzcolour :=
  let R := Cdouble.of_int cR / 255.0 in
  let G := Cdouble.of_int cG / 255.0 in
  let B := Cdouble.of_int cB / 255.0 in
  let R := if 0.04045 <? R then pow m ((R + 0.055) / 1.055) 2.4 else R / 12.92 in
  let G := if 0.04045 <? G then pow m ((G + 0.055) / 1.055) 2.4 else G / 12.92 in
  let B := if 0.04045 <? B then pow m ((B + 0.055) / 1.055) 2.4 else B / 12.92 in
  let R := R * Cdouble.of_int 100 in
  let G := G * Cdouble.of_int 100 in
  let B := B * Cdouble.of_int 100 in
  let X := R * 0.4124564 + G * 0.3575761 + B * 0.1804375 in
  let Y := R * 0.2126729 + G * 0.7151522 + B * 0.0721750 in
  let Z := R * 0.0193339 + G * 0.1191920 + B * 0.9503041 in
  let X := Cfloat.to_double
             (Cfloat.div (Cfloat.roundf (Cfloat.of_double (X * Cdouble.of_int 10000)))
                         (Cfloat.of_int 10000)) in
  let Y := Cfloat.to_double
             (Cfloat.div (Cfloat.roundf (Cfloat.of_double (Y * Cdouble.of_int 10000)))
                         (Cfloat.of_int 10000)) in
  let Z := Cfloat.to_double
             (Cfloat.div (Cfloat.roundf (Cfloat.of_double (Z * Cdouble.of_int 10000)))
                         (Cfloat.of_int 10000)) in
  {| xyz_X := X; xyz_Y := Y; xyz_Z := Z |}.

(** [struct labcolour xyz_to_lab(struct xyzcolour c)] *)
Definition xyz_to_lab (c : xyzcolour) : labcolour :=
  let ref_X := 95.047 in
  let ref_Y := 100.000 in
  let ref_Z := 108.883 in
  let Y := xyz_Y c / ref_Y in
  let Z := xyz_Z c / ref_Z in
  let X := xyz_X c / ref_X in
  let X := if 0.008856 <? X then pow m X (1.0 / 3.0) else (7.787 * X) + (16.0 / 116.0) in
  let Y := if 0.008856 <? Y then pow m Y (1.0 / 3.0) else (7.787 * Y) + (16.0 / 116.0) in
  let Z := if 0.008856 <? Z then pow m Z (1.0 / 3.0) else (7.787 * Z) + (16.0 / 116.0) in
  let L := (116.0 * Y) - 16.0 in
  let a := 500.0 * (X - Y) in
  let b := 200.0 * (Y - Z) in
  {| lab_L := L; lab_a := a; lab_b := b |}.

(** [void deltaE2000(double *lab1, double *lab2, double *delta_e)]: the two
    three-element arrays are passed as triples and the value stored through
    [delta_e] is the result. *)
Definition deltaE2000 (lab1 lab2 : float * float * float) : float :=
  let '(Lstd, astd, bstd) := lab1 in
  let '(Lsample, asample, bsample) := lab2 in
  let Cabstd := sqrt (astd * astd + bstd * bstd) in
  let Cabsample := sqrt (asample * asample + bsample * bsample) in
  let Cabarithmean := (Cabstd + Cabsample) / 2.0 in
  let G := 0.5 * (1.0 - sqrt (pow m Cabarithmean 7.0
                                / (pow m Cabarithmean 7.0 + pow m 25.0 7.0))) in
  let apstd := (1.0 + G) * astd in
  let apsample := (1.0 + G) * asample in
  let Cpsample := sqrt (apsample * apsample + bsample * bsample) in
  let Cpstd := sqrt (apstd * apstd + bstd * bstd) in
  let Cpprod := Cpsample * Cpstd in
  let hpstd := atan2 m bstd apstd in
  let hpstd := if hpstd <? 0 then hpstd + 2.0 * pi else hpstd in
  let hpsample := atan2 m bsample apsample in
  let hpsample := if hpsample <? 0 then hpsample + 2.0 * pi else hpsample in
  let hpsample := if (abs apsample + abs bsample) =? 0.0 then 0.0 else hpsample in
  let dL := Lsample - Lstd in
  let dC := Cpsample - Cpstd in
  let dhp := hpsample - hpstd in
  let dhp := if pi <? dhp then dhp - 2.0 * pi else dhp in
  let dhp := if dhp <? - pi then dhp + 2.0 * pi else dhp in
  let dhp := if Cpprod =? 0.0 then 0.0 else dhp in
  let dH := 2.0 * sqrt Cpprod * sin m (dhp / 2.0) in
  let Lp := (Lsample + Lstd) / 2.0 in
  let Cp := (Cpstd + Cpsample) / 2.0 in
  let hp := (hpstd + hpsample) / 2.0 in
  let hp := if pi <? abs (hpstd - hpsample) then hp - pi else hp in
  let hp := if hp <? 0 then hp + 2.0 * pi else hp in
  let hp := if Cpprod =? 0.0 then hpsample + hpstd else hp in
  let Lpm502 := (Lp - 50.0) * (Lp - 50.0) in
  let Sl := 1.0 + 0.015 * Lpm502 / sqrt (20.0 + Lpm502) in
  let Sc := 1.0 + 0.045 * Cp in
  let T := 1.0 - 0.17 * cos m (hp - pi / 6.0) + 0.24 * cos m (2.0 * hp)
           + 0.32 * cos m (3.0 * hp + pi / 30.0)
           - 0.20 * cos m (4.0 * hp - 63.0 * pi / 180.0) in
  let Sh := 1.0 + 0.015 * Cp * T in
  let delthetarad :=
    (30.0 * pi / 180.0) * exp m (- pow m ((180.0 / pi * hp - 275.0) / 25.0) 2.0) in
  let Rc := 2.0 * sqrt (pow m Cp 7.0 / (pow m Cp 7.0 + pow m 25.0 7.0)) in
  let RT := - sin m (2.0 * delthetarad) * Rc in
  sqrt (pow m (dL / Sl) 2.0 + pow m (dC / Sc) 2.0 + pow m (dH / Sh) 2.0
        + RT * (dC / Sc) * (dH / Sh)).

(** [double rgbCIEDE2000(int std_r, ..., int sam_b)] *)
Definition rgbCIEDE2000 (std_r std_g std_b sam_r sam_g sam_b : Z) : float :=
  let xstandard := sRGB_to_xyz std_r std_g std_b in
  let standard := xyz_to_lab xstandard in
  let xsample := sRGB_to_xyz sam_r sam_g sam_b in
  let sample := xyz_to_lab xsample in
  let std_d := (lab_L standard, lab_a standard, lab_b standard) in
  let sam_d := (lab_L sample, lab_a sample, lab_b sample) in
  deltaE2000 std_d sam_d.

Local Close Scope float_scope.

(** [this_diff = 10000 * rgbCIEDE2000(r,g,b, nr,ng,nb);] for the palette
    entry [c]: the product is a [double], the assignment converts it to
    [int]. *)
Definition choose_this_diff (r g b c : Z) : Z :=
  let '(nr, ng, nb) := palette_rgb c in
  Cdouble.to_int (Cdouble.of_int 10000 * rgbCIEDE2000 r g b nr ng nb)%float.

(** One iteration of the loop of [choose_XTterm256]. *)
Definition choose_XTterm256_body (r g b : Z) (c : Z) (st : search_state)
  : search_state :=
  let i := (c - 16)%cint in
  let '(nr, ng, nb) :=
    if c <? 232 then
      let nr := (i / 36)%cint in
      let ng := ((i / 6) %% 6)%cint in
      let nb := (i %% 6)%cint in
      let nr := if nr =? 0 then 0 else (nr * 40 + 55)%cint in
      let ng := if ng =? 0 then 0 else (ng * 40 + 55)%cint in
      let nb := if nb =? 0 then 0 else (nb * 40 + 55)%cint in
      (nr, ng, nb)
    else
      let i := (i - 216)%cint in
      let v := (i * 10 + 8)%cint in
      (v, v, v) in
  let this_diff :=
    Cdouble.to_int (Cdouble.of_int 10000 * rgbCIEDE2000 r g b nr ng nb)%float in
  if (best_diff st <? 0) || (best_diff st >? this_diff)
  then {| best_diff := this_diff; nearest_static := c |}
  else st.

(** [int choose_XTterm256(int r, int g, int b)] *)
Definition choose_XTterm256 (r g b : Z) : Z :=
  nearest_static (for_loop 240 16 (choose_XTterm256_body r g b) search_init).

End EvilColour.

(** A stand-in for <math.h> on which the definitions can be run: [pow]
    squares its first argument, [atan2] and [sin] return 0, [cos] and [exp]
    return 1.  It fixes nothing about the real routines. *)
Definition libm_sample : libm :=
  {| pow := fun x _ => (x * x)%float;
     atan2 := fun _ _ => 0%float;
     sin := fun _ => 0%float;
     cos := fun _ => 1%float;
     exp := fun _ => 1%float |}.

(** ** An implementation of the <math.h> routines by power series

    [libm_series] computes [pow], [atan2], [sin], [cos] and [exp] in
    [double] arithmetic by argument reduction and truncated power series.
    It is not the C library: its results agree with the mathematical
    functions to about thirteen significant digits, which is enough to run
    the CIEDE2000 code on concrete colours. *)
Module Series.

Local Open Scope float_scope.

Definition ln2 : float := 0.6931471805599453.
Definition twopi : float := 6.283185307179586.
Definition halfpi : float := 1.5707963267948966.

(** The nearest integer to a number of moderate size. *)
Definition nearest (x : float) : Z :=
  Cdouble.to_int (if x <? 0 then x - 0.5 else x + 0.5).

(** sum + term * (x/k) + term * (x/k) * (x/(k+1)) + ..., [n] more terms. *)
Fixpoint exp_terms (n : nat) (x term sum k : float) : float :=
  match n with
  | O => sum
  | S n' =>
      let term := term * x / k in
      exp_terms n' x term (sum + term) (k + 1)
  end.

(** exp x = 2^k * exp r with x = k ln 2 + r. *)
Definition exp (x : float) : float :=
  let k := nearest (x / ln2) in
  let r := x - Cdouble.of_int k * ln2 in
  Z.ldexp (exp_terms 30 r 1 1 1) k.

(** 1 + z2/3 + z2^2/5 + ..., [n] more terms after [sum]. *)
Fixpoint atanh_terms (n : nat) (z2 power sum k : float) : float :=
  match n with
  | O => sum
  | S n' =>
      let power := power * z2 in
      atanh_terms n' z2 power (sum + power / k) (k + 2)
  end.

(** log x = e ln 2 + 2 atanh ((f-1)/(f+1)) with x = f * 2^e and f in
    [sqrt 1/2, sqrt 2), for x > 0. *)
Definition log (x : float) : float :=
  let '(f, e) := Z.frexp x in
  let '(f, e) := if f <? sqrt 0.5 then (f * 2, (e - 1)%Z) else (f, e) in
  let z := (f - 1) / (f + 1) in
  Cdouble.of_int e * ln2 + 2 * z * atanh_terms 25 (z * z) 1 1 3.

(** term - term r2/(k(k+1)) + ..., the alternating series of sin and cos. *)
Fixpoint trig_terms (n : nat) (r2 term sum k : float) : float :=
  match n with
  | O => sum
  | S n' =>
      let term := - (term * r2 / (k * (k + 1))) in
      trig_terms n' r2 term (sum + term) (k + 2)
  end.

(** The argument brought into [-pi, pi]. *)
Definition reduce (x : float) : float :=
  x - Cdouble.of_int (nearest (x / twopi)) * twopi.

Definition sin (x : float) : float :=
  let r := reduce x in trig_terms 30 (r * r) r r 2.

Definition cos (x : float) : float :=
  let r := reduce x in trig_terms 30 (r * r) 1 1 1.

(** z - z^3/3 + z^5/5 - ..., for small z. *)
Fixpoint atan_terms (n : nat) (z2 power sum k : float) : float :=
  match n with
  | O => sum
  | S n' =>
      let power := - (power * z2) in
      atan_terms n' z2 power (sum + power / k) (k + 2)
  end.

(** atan t for 0 <= t <= 1, by two halvings of the angle. *)
Definition atan_unit (t : float) : float :=
  let t := t / (1 + sqrt (1 + t * t)) in
  let t := t / (1 + sqrt (1 + t * t)) in
  4 * atan_terms 30 (t * t) t t 3.

Definition atan (t : float) : float :=
  let a := abs t in
  let r := if 1 <? a then halfpi - atan_unit (1 / a) else atan_unit a in
  if t <? 0 then - r else r.

Definition atan2 (y x : float) : float :=
  if 0 <? x then atan (y / x)
  else if x <? 0 then
    (if y <? 0 then atan (y / x) - 2 * halfpi else atan (y / x) + 2 * halfpi)
  else if 0 <? y then halfpi
  else if y <? 0 then - halfpi
  else 0.

(** Squares and seventh powers by multiplication, the rest as
    exp (y log x). *)
Definition pow (x y : float) : float :=
  if y =? 2 then x * x
  else if y =? 7 then
    let x2 := x * x in let x3 := x2 * x in x3 * x3 * x
  else if x =? 0 then 0
  else exp (y * log x).

End Series.

Definition libm_series : libm :=
  {| pow := Series.pow;
     atan2 := Series.atan2;
     sin := Series.sin;
     cos := Series.cos;
     exp := Series.exp |}.

(** The CIEDE2000 distance of palette entry [c] from (r,g,b) as
    [choose_XTterm256] calls for it, and the [double] product
    [10000 * rgbCIEDE2000(r,g,b, nr,ng,nb)] before its conversion to [int]. *)
Definition choose_distance (m : libm) (r g b c : Z) : float :=
  let '(nr, ng, nb) := palette_rgb c in rgbCIEDE2000 m r g b nr ng nb.

Definition choose_scaled (m : libm) (r g b c : Z) : float :=
  let '(nr, ng, nb) := palette_rgb c in
  (Cdouble.of_int 10000 * rgbCIEDE2000 m r g b nr ng nb)%float.

(** ** Specification-side vocabulary

    The palette model and the distance as the specification words them
    (sections 3 and 4.3), in unbounded integer arithmetic; the theorems
    compare the code above with these. *)

(** "component value = 0 if coordinate is 0, else 55+40*coordinate". *)
Definition component (n : Z) : Z := if n =? 0 then 0 else 55 + 40 * n.

(** "paletteEntryRgb(index: 16..255)": cube coordinates
    ((index-16)/36, (index-16)/6 mod 6, (index-16) mod 6) for 16..231,
    level = index-232 and component 8+10*level for 232..255. *)
Definition paletteEntryRgb (index : Z) : Z * Z * Z :=
  if index <? 232 then
    (component ((index - 16) / 36),
     component (((index - 16) / 6) mod 6),
     component ((index - 16) mod 6))
  else
    let level := index - 232 in
    (8 + 10 * level, 8 + 10 * level, 8 + 10 * level).

(** "squared per-channel RGB differences", summed. *)
Definition sq_dist (p q : Z * Z * Z) : Z :=
  let '(r1, g1, b1) := p in
  let '(r2, g2, b2) := q in
  (r1 - r2) * (r1 - r2) + (g1 - g2) * (g1 - g2) + (b1 - b2) * (b1 - b2).

(** An RGB channel value: an integer in [0,255]. *)
Definition channel (v : Z) : Prop := 0 <= v <= 255.

(** A palette index the core can produce: an integer in [16,255]. *)
Definition palette_index (c : Z) : Prop := 16 <= c <= 255.

(** The outcome of an operation in the error taxonomy of section 7. *)
Inductive outcome : Type :=
| Index (c : Z)
| InvalidInput.

(** The C matchers have a single exit, [return nearest_static;]: whatever the
    arguments, the caller receives an [int]. *)
Definition PuTTY_256_outcome (r g b : Z) : outcome := Index (PuTTY_256 r g b).
Definition XTerm_256_outcome (r g b : Z) : outcome := Index (XTerm_256 r g b).
Definition choose_XTterm256_outcome (m : libm) (r g b : Z) : outcome :=
  Index (choose_XTterm256 m r g b).

(** A matcher rejects out-of-range input when every triple with a channel
    outside [0,255] yields [InvalidInput]. *)
Definition rejects_out_of_range (f : Z -> Z -> Z -> outcome) : Prop :=
  forall r g b, ~ (channel r /\ channel g /\ channel b) -> f r g b = InvalidInput.

(** ** The search loop in isolation

    Both exhaustive matchers run the same update on a per-candidate
    difference; [search_body diff] is that iteration for the difference
    [diff c] of candidate [c]. *)

Definition search_body (diff : Z -> Z) (c : Z) (st : search_state) : search_state :=
  search_step (diff c) c st.

(** What holds before the iteration for candidate [c] when nothing is assumed
    about the differences: either no candidate was seen, or the state names
    one of those seen. *)
Definition visited (c : Z) (st : search_state) : Prop :=
  (c = 16 /\ st = search_init) \/ (16 <= nearest_static st < c).

(** What holds before the iteration for candidate [c] when the differences
    seen so far are not negative: the state records the first candidate that
    attains the least difference. *)
Definition first_min (diff : Z -> Z) (c : Z) (st : search_state) : Prop :=
  (c = 16 /\ st = search_init)
  \/ (16 <= nearest_static st < c
      /\ best_diff st = diff (nearest_static st)
      /\ (forall k, 16 <= k < c -> best_diff st <= diff k)
      /\ (forall k, 16 <= k < nearest_static st -> best_diff st < diff k)).

(** ** Finite ranges of integers, for checks by enumeration *)

Definition Zrange (lo : Z) (n : nat) : list Z :=
  map (fun k => lo + Z.of_nat k) (seq 0 n).

(** ** rdb/colour_conv.c, the weighted search

    [XTerm_256_unused] runs the loop of [XTerm_256] with [double] differences
    scaled by 0.30, 0.61 and 0.11 before squaring. *)

Record weighted_state : Type := mk_weighted
  { best_weighted : float;
    nearest_weighted : Z }.

(** [double best_diff = -1; int nearest_static = 0;] *)
Definition weighted_init : weighted_state :=
  {| best_weighted := Cdouble.of_int (-1); nearest_weighted := 0 |}.

(** The three [d = n - x; d *= w; this_diff += d*d;] statements: the [int]
    difference is converted to [double] by the assignment to [d]. *)
Definition weighted_this_diff (r g b c : Z) : float :=
  let '(nr, ng, nb) := palette_rgb c in
  let this_diff := Cdouble.of_int 0 in
  let d := Cdouble.of_int (nr - r)%cint in
  let d := (d * 0.30)%float in let this_diff := (this_diff + d * d)%float in
  let d := Cdouble.of_int (ng - g)%cint in
  let d := (d * 0.61)%float in let this_diff := (this_diff + d * d)%float in
  let d := Cdouble.of_int (nb - b)%cint in
  let d := (d * 0.11)%float in let this_diff := (this_diff + d * d)%float in
  this_diff.

(** [if (best_diff<0 || best_diff>this_diff) { nearest_static = c;
    best_diff = this_diff; }] on [double]s. *)
Definition weighted_step (this_diff : float) (c : Z) (st : weighted_state)
  : weighted_state :=
  if (best_weighted st <? Cdouble.of_int 0)%float
     || (this_diff <? best_weighted st)%float
  then {| best_weighted := this_diff; nearest_weighted := c |}
  else st.

(** One iteration of the loop of [XTerm_256_unused]. *)
Definition XTerm_256_unused_body (r g b : Z) (c : Z) (st : weighted_state)
  : weighted_state :=
  let i := (c - 16)%cint in
  let '(nr, ng, nb) :=
    if c <? 232 then
      let nr := (i / 36)%cint in
      let ng := ((i / 6) %% 6)%cint in
      let nb := (i %% 6)%cint in
      let nr := if nr =? 0 then 0 else (nr * 40 + 55)%cint in
      let ng := if ng =? 0 then 0 else (ng * 40 + 55)%cint in
      let nb := if nb =? 0 then 0 else (nb * 40 + 55)%cint in
      (nr, ng, nb)
    else
      let i := (i - 216)%cint in
      let v := (i * 10 + 8)%cint in
      (v, v, v) in
  let this_diff := Cdouble.of_int 0 in
  let d := Cdouble.of_int (nr - r)%cint in
  let d := (d * 0.30)%float in let this_diff := (this_diff + d * d)%float in
  let d := Cdouble.of_int (ng - g)%cint in
  let d := (d * 0.61)%float in let this_diff := (this_diff + d * d)%float in
  let d := Cdouble.of_int (nb - b)%cint in
  let d := (d * 0.11)%float in let this_diff := (this_diff + d * d)%float in
  if (best_weighted st <? Cdouble.of_int 0)%float
     || (this_diff <? best_weighted st)%float
  then {| best_weighted := this_diff; nearest_weighted := c |}
  else st.

(** [static int XTerm_256_unused(int r, int g, int b)] *)
Definition XTerm_256_unused (r g b : Z) : Z :=
  nearest_weighted (for_loop 240 16 (XTerm_256_unused_body r g b) weighted_init).

(** The iteration for the difference [diff c] of candidate [c], and what
    holds before it when nothing is assumed about the differences. *)
Definition weighted_body (diff : Z -> float) (c : Z) (st : weighted_state)
  : weighted_state :=
  weighted_step (diff c) c st.

Definition weighted_visited (c : Z) (st : weighted_state) : Prop :=
  (c = 16 /\ st = weighted_init) \/ (16 <= nearest_weighted st < c).

(** ** The order of binary64 values

    [sf_key] sends a binary64 value other than NaN to an integer so that the
    IEEE order becomes the order of [Z]: a finite value m * 2^e goes to
    m * 2^(e+1074), which is an integer because e >= -1074, and the
    infinities go beyond every finite image. *)
Definition sf_key (x : spec_float) : Z :=
  match x with
  | S754_zero _ => 0
  | S754_nan => 0
  | S754_infinity s => cond_Zopp s (2 ^ 2100)
  | S754_finite s m e => cond_Zopp s (Zpos m * 2 ^ (e + 1074))
  end.

Definition sf_is_nan (x : spec_float) : bool :=
  match x with
  | S754_nan => true
  | _ => false
  end.

(** Zero, a positive finite value or plus infinity. *)
Definition sf_nonneg (x : spec_float) : bool :=
  match x with
  | S754_nan => false
  | S754_zero _ => true
  | S754_infinity s => negb s
  | S754_finite s _ _ => negb s
  end.

Definition float_key (x : float) : Z := sf_key (Prim2SF x).

(** What holds before the iteration of the weighted search for candidate
    [c] when the differences are not negative and not NaN: the state records
    the first candidate that attains the least difference. *)
Definition weighted_first_min (diff : Z -> float) (c : Z) (st : weighted_state)
  : Prop :=
  (c = 16 /\ st = weighted_init)
  \/ (16 <= nearest_weighted st < c
      /\ best_weighted st = diff (nearest_weighted st)
      /\ (forall k, 16 <= k < c ->
                    float_key (best_weighted st) <= float_key (diff k))
      /\ (forall k, 16 <= k < nearest_weighted st ->
                    float_key (best_weighted st) < float_key (diff k))).

(** * Properties *)

(** ** Integer arithmetic without overflow *)

Lemma wrap_small (z : Z) : Cint.in_range z -> Cint.wrap z = z.
Proof.
  unfold Cint.in_range, Cint.min_int, Cint.max_int, Cint.wrap.
  intros H. rewrite Z.mod_small; lia.
Qed.

Lemma wrap_in_range (z : Z) : Cint.in_range (Cint.wrap z).
Proof.
  unfold Cint.in_range, Cint.min_int, Cint.max_int, Cint.wrap.
  pose proof (Z.mod_pos_bound (z + 2 ^ 31) (2 ^ 32) ltac:(lia)). lia.
Qed.

(** Removes every [wrap] whose argument [lia] can bound, innermost first. *)
Ltac unwrap :=
  unfold Cint.add, Cint.sub, Cint.mul, Cint.div, Cint.rem, Cint.abs in *;
  repeat match goal with
    | |- context [Cint.wrap ?x] =>
        lazymatch x with
        | context [Cint.wrap _] => fail
        | _ => rewrite (wrap_small x)
                 by (unfold Cint.in_range, Cint.min_int, Cint.max_int; lia)
        end
    end.

(** Splits an equation between tuples into its components. *)
Ltac split_tuple :=
  repeat match goal with |- (_, _) = (_, _) => apply f_equal2 end.

(** [lia] is taught truncating division by the standard hook. *)
Ltac Zify.zify_post_hook ::= Z.to_euclidean_division_equations.

(** ** Enumeration *)

Lemma Zrange_In (lo : Z) (n : nat) (v : Z) :
  lo <= v < lo + Z.of_nat n -> In v (Zrange lo n).
Proof.
  intros H. unfold Zrange. apply in_map_iff.
  exists (Z.to_nat (v - lo)). split; [lia|]. apply in_seq. lia.
Qed.

Lemma forallb_Zrange (p : Z -> bool) (lo : Z) (n : nat) :
  forallb p (Zrange lo n) = true ->
  forall v, lo <= v < lo + Z.of_nat n -> p v = true.
Proof.
  intros H v Hv. rewrite forallb_forall in H. apply H, Zrange_In, Hv.
Qed.

(** ** The counted loop *)

Lemma for_loop_ext {S : Type} (body1 body2 : Z -> S -> S) :
  (forall c st, body1 c st = body2 c st) ->
  forall n c st, for_loop n c body1 st = for_loop n c body2 st.
Proof.
  intros Hext n. induction n as [|n IH]; intros c st; simpl.
  - reflexivity.
  - rewrite Hext. apply IH.
Qed.

(** ** The search loop, for an arbitrary per-candidate difference *)

Section SearchLoop.

Variable diff : Z -> Z.

Lemma visited_step (c : Z) (st : search_state) :
  16 <= c -> visited c st -> visited (c + 1) (search_body diff c st).
Proof.
  intros Hc Hv. right. unfold search_body, search_step.
  destruct ((best_diff st <? 0) || (best_diff st >? diff c)) eqn:E; simpl.
  - lia.
  - destruct Hv as [[_ ->]|Hv]; [discriminate E | lia].
Qed.

Lemma visited_loop (n : nat) :
  forall c st, 16 <= c -> visited c st ->
               visited (c + Z.of_nat n) (for_loop n c (search_body diff) st).
Proof.
  induction n as [|n IH]; intros c st Hc Hv.
  - simpl. now rewrite Z.add_0_r.
  - cbn [for_loop].
    replace (c + Z.of_nat (S n)) with ((c + 1) + Z.of_nat n) by lia.
    apply IH; [lia | now apply visited_step].
Qed.

Lemma search_in_palette :
  palette_index (nearest_static (for_loop 240 16 (search_body diff) search_init)).
Proof.
  pose proof (visited_loop 240 16 search_init ltac:(lia)
                (or_introl (conj eq_refl eq_refl))) as [[H _]|H];
    unfold palette_index; lia.
Qed.

Lemma first_min_step (c : Z) (st : search_state) :
  16 <= c -> (forall k, 16 <= k <= c -> 0 <= diff k) ->
  first_min diff c st -> first_min diff (c + 1) (search_body diff c st).
Proof.
  intros Hc Hpos Hinv. right. unfold search_body, search_step.
  destruct Hinv as [[-> ->]|(Hn & Hb & Hall & Hbefore)].
  - simpl. repeat split; try lia.
    intros k Hk. replace k with 16 by lia. lia.
  - assert (Hnn : 0 <= best_diff st) by (rewrite Hb; apply Hpos; lia).
    destruct (best_diff st <? 0) eqn:E0; [apply Z.ltb_lt in E0; lia|].
    destruct (best_diff st >? diff c) eqn:E1; simpl.
    + apply Z.gtb_lt in E1. repeat split; try lia.
      * intros k Hk. destruct (Z.eq_dec k c) as [->|Hne]; [lia|].
        specialize (Hall k ltac:(lia)). lia.
      * intros k Hk. specialize (Hall k ltac:(lia)). lia.
    + assert (best_diff st <= diff c).
      { destruct (Z.gtb_spec (best_diff st) (diff c)); [discriminate | lia]. }
      repeat split; try lia; try assumption.
      intros k Hk. destruct (Z.eq_dec k c) as [->|Hne]; [lia|].
      apply Hall. lia.
Qed.

Lemma first_min_loop (n : nat) :
  forall c st, 16 <= c ->
               (forall k, 16 <= k < c + Z.of_nat n -> 0 <= diff k) ->
               first_min diff c st ->
               first_min diff (c + Z.of_nat n) (for_loop n c (search_body diff) st).
Proof.
  induction n as [|n IH]; intros c st Hc Hpos Hinv.
  - simpl. now rewrite Z.add_0_r.
  - cbn [for_loop].
    replace (c + Z.of_nat (S n)) with ((c + 1) + Z.of_nat n) by lia.
    apply IH; [lia | intros k Hk; apply Hpos; lia |].
    apply first_min_step; [lia | intros k Hk; apply Hpos; lia | assumption].
Qed.

Lemma search_first_min :
  (forall k, palette_index k -> 0 <= diff k) ->
  let c := nearest_static (for_loop 240 16 (search_body diff) search_init) in
  palette_index c
  /\ (forall k, palette_index k -> diff c <= diff k)
  /\ (forall k, 16 <= k < c -> diff c < diff k).
Proof.
  intros Hpos.
  pose proof (first_min_loop 240 16 search_init ltac:(lia)) as H.
  specialize (H ltac:(intros k Hk; apply Hpos; unfold palette_index; lia)
                (or_introl (conj eq_refl eq_refl))).
  destruct H as [[H _]|(Hn & Hb & Hall & Hbefore)]; [lia|].
  cbv zeta. rewrite <- Hb. unfold palette_index in *.
  repeat split; try lia.
  - intros k Hk. apply Hall. lia.
  - exact Hbefore.
Qed.

End SearchLoop.

(** ** The two loop bodies are the generic update *)

Lemma XTerm_256_body_step (r g b c : Z) (st : search_state) :
  XTerm_256_body r g b c st = search_body (XTerm_this_diff r g b) c st.
Proof.
  unfold XTerm_256_body, search_body, search_step, XTerm_this_diff, palette_rgb.
  destruct (c <? 232); reflexivity.
Qed.

Lemma choose_XTterm256_body_step (m : libm) (r g b c : Z) (st : search_state) :
  choose_XTterm256_body m r g b c st = search_body (choose_this_diff m r g b) c st.
Proof.
  unfold choose_XTterm256_body, search_body, search_step, choose_this_diff, palette_rgb.
  destruct (c <? 232); reflexivity.
Qed.

Lemma XTerm_256_search (r g b : Z) :
  XTerm_256 r g b
  = nearest_static (for_loop 240 16 (search_body (XTerm_this_diff r g b)) search_init).
Proof.
  unfold XTerm_256.
  now rewrite (for_loop_ext _ _ (XTerm_256_body_step r g b)).
Qed.

Lemma choose_XTterm256_search (m : libm) (r g b : Z) :
  choose_XTterm256 m r g b
  = nearest_static (for_loop 240 16 (search_body (choose_this_diff m r g b)) search_init).
Proof.
  unfold choose_XTterm256.
  now rewrite (for_loop_ext _ _ (choose_XTterm256_body_step m r g b)).
Qed.

(** ** The palette as the loops compute it *)

(** On 16..231 the loop's cube arm agrees with the specification's formula:
    no intermediate value leaves the [int] range and truncating division
    coincides with flooring on non-negative operands. *)
Lemma palette_rgb_cube (c : Z) :
  16 <= c < 232 -> palette_rgb c = paletteEntryRgb c.
Proof.
  intros Hc. unfold palette_rgb, paletteEntryRgb, component.
  destruct (Z.ltb_spec c 232) as [_|]; [|lia].
  unwrap.
  rewrite (Z.quot_div_nonneg (c - 16) 36), (Z.quot_div_nonneg (c - 16) 6) by lia.
  rewrite (Z.rem_mod_nonneg ((c - 16) / 6) 6), (Z.rem_mod_nonneg (c - 16) 6) by lia.
  assert (0 <= (c - 16) / 36 <= 5) by lia.
  assert (0 <= ((c - 16) / 6) mod 6 <= 5) by lia.
  assert (0 <= (c - 16) mod 6 <= 5) by lia.
  repeat match goal with
         | |- context [if ?n =? 0 then _ else _] => destruct (Z.eqb_spec n 0)
         end; split_tuple; lia.
Qed.

Lemma palette_rgb_grey (c : Z) :
  232 <= c <= 255 -> palette_rgb c = paletteEntryRgb c.
Proof.
  intros Hc. unfold palette_rgb, paletteEntryRgb.
  destruct (Z.ltb_spec c 232); [lia|].
  unwrap. split_tuple; lia.
Qed.

Lemma palette_rgb_spec (c : Z) :
  palette_index c -> palette_rgb c = paletteEntryRgb c.
Proof.
  unfold palette_index. intros Hc.
  destruct (Z.lt_ge_cases c 232); [apply palette_rgb_cube | apply palette_rgb_grey]; lia.
Qed.

Lemma component_channel (n : Z) : 0 <= n <= 5 -> channel (component n).
Proof.
  unfold channel, component. intros Hn. destruct (Z.eqb_spec n 0); lia.
Qed.

Lemma paletteEntryRgb_channels (c : Z) :
  palette_index c ->
  let '(pr, pg, pb) := paletteEntryRgb c in channel pr /\ channel pg /\ channel pb.
Proof.
  unfold palette_index, paletteEntryRgb. intros Hc.
  destruct (Z.ltb_spec c 232).
  - repeat split; apply component_channel; lia.
  - cbv zeta. unfold channel. lia.
Qed.

(** ** The Euclidean difference *)

Lemma square_le (d : Z) : -255 <= d <= 255 -> 0 <= d * d <= 65025.
Proof. intros H. nia. Qed.

Lemma sq_dist_nonneg (p q : Z * Z * Z) : 0 <= sq_dist p q.
Proof.
  destruct p as [[r1 g1] b1], q as [[r2 g2] b2]. unfold sq_dist.
  pose proof (Z.square_nonneg (r1 - r2)).
  pose proof (Z.square_nonneg (g1 - g2)).
  pose proof (Z.square_nonneg (b1 - b2)). lia.
Qed.

Lemma sq_dist_zero (p q : Z * Z * Z) : sq_dist p q = 0 -> p = q.
Proof.
  destruct p as [[r1 g1] b1], q as [[r2 g2] b2]. unfold sq_dist. intros H.
  pose proof (Z.square_nonneg (r1 - r2)).
  pose proof (Z.square_nonneg (g1 - g2)).
  pose proof (Z.square_nonneg (b1 - b2)).
  assert (r1 - r2 = 0) by nia.
  assert (g1 - g2 = 0) by nia.
  assert (b1 - b2 = 0) by nia.
  split_tuple; lia.
Qed.

(** For channels in [0,255] the sum accumulated in [this_diff] never leaves
    the [int] range: it is the squared distance to the palette entry. *)
Lemma XTerm_this_diff_spec (r g b c : Z) :
  channel r -> channel g -> channel b -> palette_index c ->
  XTerm_this_diff r g b c = sq_dist (paletteEntryRgb c) (r, g, b).
Proof.
  unfold channel. intros Hr Hg Hb Hc. unfold XTerm_this_diff.
  rewrite (palette_rgb_spec c Hc).
  pose proof (paletteEntryRgb_channels c Hc) as Hp.
  destruct (paletteEntryRgb c) as [[pr pg] pb]. unfold channel in Hp.
  destruct Hp as (Hpr & Hpg & Hpb). unfold sq_dist.
  pose proof (square_le (pr - r) ltac:(lia)).
  pose proof (square_le (pg - g) ltac:(lia)).
  pose proof (square_le (pb - b) ltac:(lia)).
  unwrap. lia.
Qed.

(** ** C1 *)

(** C1.  For channels in [0,255], [XTerm_256] returns an index of 16..255
    whose palette entry is at least squared RGB distance from the input among
    all entries 16..255, and every lower index is strictly farther: the
    brute-force argmin, ties going to the first index. *)
Theorem XTerm_256_first_argmin (r g b : Z) :
  channel r -> channel g -> channel b ->
  let c := XTerm_256 r g b in
  palette_index c
  /\ (forall k, palette_index k ->
                sq_dist (paletteEntryRgb c) (r, g, b)
                <= sq_dist (paletteEntryRgb k) (r, g, b))
  /\ (forall k, 16 <= k < c ->
                sq_dist (paletteEntryRgb c) (r, g, b)
                < sq_dist (paletteEntryRgb k) (r, g, b)).
Proof.
  intros Hr Hg Hb. cbv zeta. rewrite XTerm_256_search.
  assert (Hpos : forall k, palette_index k -> 0 <= XTerm_this_diff r g b k).
  { intros k Hk. rewrite XTerm_this_diff_spec by assumption. apply sq_dist_nonneg. }
  destruct (search_first_min (XTerm_this_diff r g b) Hpos) as (Hc & Hmin & Hfirst).
  split; [exact Hc|]. split.
  - intros k Hk. rewrite <- !XTerm_this_diff_spec by assumption. now apply Hmin.
  - intros k Hk.
    rewrite <- !XTerm_this_diff_spec
      by (try assumption; unfold palette_index in *; lia).
    now apply Hfirst.
Qed.

Lemma XTerm_256_first_argmin_witness :
  let c := XTerm_256 255 0 0 in
  palette_index c
  /\ (forall k, palette_index k ->
                sq_dist (paletteEntryRgb c) (255, 0, 0)
                <= sq_dist (paletteEntryRgb k) (255, 0, 0))
  /\ (forall k, 16 <= k < c ->
                sq_dist (paletteEntryRgb c) (255, 0, 0)
                < sq_dist (paletteEntryRgb k) (255, 0, 0)).
Proof.
  apply (XTerm_256_first_argmin 255 0 0); unfold channel; lia.
Defined.

(** ** C8 *)

(** C8.  For cube coordinates in [0,5], decoding the index
    16 + nb + ng*6 + nr*36 as the search loops do gives the coordinates
    back. *)
Theorem cube_decode_index (nr ng nb : Z) :
  0 <= nr <= 5 -> 0 <= ng <= 5 -> 0 <= nb <= 5 ->
  cube_decode (cube_index nr ng nb) = (nr, ng, nb).
Proof.
  intros Hr Hg Hb. unfold cube_decode, cube_index. unwrap.
  split_tuple; lia.
Qed.

Lemma cube_decode_index_witness : cube_decode (cube_index 5 0 3) = (5, 0, 3).
Proof.
  apply (cube_decode_index 5 0 3); lia.
Defined.

(** ** C10 *)

Lemma component_inj (n n' : Z) :
  0 <= n -> 0 <= n' -> component n = component n' -> n = n'.
Proof.
  unfold component. intros Hn Hn'.
  destruct (Z.eqb_spec n 0), (Z.eqb_spec n' 0); lia.
Qed.

(** A grey-ramp level 8+10k is never a cube component 0 or 55+40n. *)
Lemma component_not_grey (n level : Z) :
  0 <= n -> 0 <= level -> component n <> 8 + 10 * level.
Proof.
  unfold component. intros Hn Hl. destruct (Z.eqb_spec n 0); lia.
Qed.

Lemma paletteEntryRgb_inj (c c' : Z) :
  palette_index c -> palette_index c' ->
  paletteEntryRgb c = paletteEntryRgb c' -> c = c'.
Proof.
  unfold palette_index, paletteEntryRgb. intros Hc Hc'.
  destruct (Z.ltb_spec c 232), (Z.ltb_spec c' 232); cbv zeta; intros E;
    pose proof (f_equal (fun p => fst (fst p)) E) as E1;
    pose proof (f_equal (fun p => snd (fst p)) E) as E2;
    pose proof (f_equal snd E) as E3; cbn [fst snd] in E1, E2, E3.
  - apply component_inj in E1; [|lia|lia].
    apply component_inj in E2; [|lia|lia].
    apply component_inj in E3; [|lia|lia]. lia.
  - exfalso. apply (component_not_grey ((c - 16) / 36) (c' - 232)); [lia | lia | exact E1].
  - exfalso. apply (component_not_grey ((c' - 16) / 36) (c - 232)); [lia | lia | now symmetry].
  - lia.
Qed.

(** C10.  The 240 palette entries are pairwise distinct, and [XTerm_256]
    applied to the colour of entry [c] of 16..255 returns [c]. *)
Theorem XTerm_256_palette_fixed (c : Z) :
  palette_index c ->
  (let '(r, g, b) := paletteEntryRgb c in XTerm_256 r g b) = c
  /\ (forall c', palette_index c' -> paletteEntryRgb c' = paletteEntryRgb c -> c' = c).
Proof.
  intros Hc. split.
  - pose proof (paletteEntryRgb_channels c Hc) as Hch.
    destruct (paletteEntryRgb c) as [[r g] b] eqn:E.
    destruct Hch as (Hr & Hg & Hb).
    rewrite XTerm_256_search.
    assert (Hpos : forall k, palette_index k -> 0 <= XTerm_this_diff r g b k).
    { intros k Hk. rewrite XTerm_this_diff_spec by assumption. apply sq_dist_nonneg. }
    destruct (search_first_min (XTerm_this_diff r g b) Hpos) as (Hc' & Hmin & _).
    set (c' := nearest_static _) in *.
    specialize (Hmin c Hc).
    rewrite !XTerm_this_diff_spec in Hmin by assumption.
    assert (Hz : sq_dist (paletteEntryRgb c) (r, g, b) = 0).
    { rewrite E. unfold sq_dist. lia. }
    pose proof (sq_dist_nonneg (paletteEntryRgb c') (r, g, b)).
    apply paletteEntryRgb_inj; try assumption.
    rewrite E. apply sq_dist_zero. lia.
  - intros c' Hc' E. now apply paletteEntryRgb_inj.
Qed.

Lemma XTerm_256_palette_fixed_witness :
  (let '(r, g, b) := paletteEntryRgb 244 in XTerm_256 r g b) = 244
  /\ (forall c', palette_index c' -> paletteEntryRgb c' = paletteEntryRgb 244 -> c' = 244).
Proof.
  apply (XTerm_256_palette_fixed 244). unfold palette_index. lia.
Defined.

(** ** The analytic matcher *)

(** [PuTTY_256] in terms of the named parts of its body. *)
Lemma PuTTY_256_unfold (r g b : Z) :
  PuTTY_256 r g b
  = if grey_fires r g b
    then if cube_sq_dist r g b >=? grey_sq_dist r g b
         then grey_nw (grey_tw r g b)
         else cube_index (cube_coord r) (cube_coord g) (cube_coord b)
    else cube_index (cube_coord r) (cube_coord g) (cube_coord b).
Proof.
  unfold PuTTY_256, grey_fires, cube_sq_dist, grey_sq_dist, grey_test, grey_tw,
    grey_nw, grey_tc, grey_tg, cube_index, cube_coord.
  cbv zeta. reflexivity.
Qed.

Lemma cube_coord_spec (v : Z) :
  channel v ->
  cube_coord v = (if (v - 36) ÷ 40 =? 0 then (v + 47) ÷ 95 else (v - 36) ÷ 40)
  /\ 0 <= cube_coord v <= 5.
Proof.
  unfold channel, cube_coord. intros Hv. unwrap. split; [reflexivity|].
  destruct (Z.eqb_spec ((v - 36) ÷ 40) 0); lia.
Qed.

Lemma cube_index_range (nr ng nb : Z) :
  0 <= nr <= 5 -> 0 <= ng <= 5 -> 0 <= nb <= 5 ->
  cube_index nr ng nb = 16 + nb + ng * 6 + nr * 36
  /\ 16 <= cube_index nr ng nb <= 231.
Proof.
  intros Hr Hg Hb. unfold cube_index. unwrap. lia.
Qed.

Lemma grey_tw_spec (r g b : Z) :
  channel r -> channel g -> channel b ->
  grey_tw r g b = (r + g + b) ÷ 3 /\ 0 <= grey_tw r g b <= 255.
Proof.
  unfold channel, grey_tw. intros Hr Hg Hb. unwrap. lia.
Qed.

Lemma grey_nw_range (tw : Z) : 0 <= tw <= 255 -> 232 <= grey_nw tw <= 255.
Proof.
  intros H. unfold grey_nw. unwrap.
  destruct (Z.gtb_spec (232 + (tw - 4) ÷ 10) 255); lia.
Qed.

Lemma grey_tc_spec (nr ng nb : Z) :
  0 <= nb <= 5 ->
  grey_tc nr ng nb = (if nb =? 0 then 0 else nb * 40 + 55) ÷ 3
  /\ 0 <= grey_tc nr ng nb <= 85.
Proof.
  intros Hb. unfold grey_tc. destruct (Z.eqb_spec nb 0); unwrap; lia.
Qed.

(** ** C2 *)

(** C2, as stated, fails at (4,4,4): the grey branch is entered, both squared
    distances are 16, and the result is the grey index 232, not the cube
    index 16. *)
Lemma PuTTY_256_tie_not_cube :
  grey_fires 4 4 4 = true
  /\ cube_sq_dist 4 4 4 = grey_sq_dist 4 4 4
  /\ PuTTY_256 4 4 4 = 232
  /\ cube_index (cube_coord 4) (cube_coord 4) (cube_coord 4) = 16
  /\ ~ (forall r g b,
           grey_fires r g b = true ->
           cube_sq_dist r g b = grey_sq_dist r g b ->
           PuTTY_256 r g b = cube_index (cube_coord r) (cube_coord g) (cube_coord b)).
Proof.
  repeat split; try reflexivity.
  intros H. specialize (H 4 4 4 eq_refl eq_refl). discriminate H.
Qed.

(** C2, amended.  Whenever the grey-axis branch is entered and the two
    squared distances are equal, the comparison [>=] succeeds and the
    greyscale candidate [nw] is returned. *)
Theorem PuTTY_256_tie_grey (r g b : Z) :
  grey_fires r g b = true ->
  cube_sq_dist r g b = grey_sq_dist r g b ->
  PuTTY_256 r g b = grey_nw (grey_tw r g b).
Proof.
  intros Hfire Htie. rewrite PuTTY_256_unfold, Hfire, Htie.
  destruct (Z.geb_spec (grey_sq_dist r g b) (grey_sq_dist r g b)); [reflexivity | lia].
Qed.

Lemma PuTTY_256_tie_grey_witness : PuTTY_256 4 4 4 = grey_nw (grey_tw 4 4 4).
Proof.
  apply (PuTTY_256_tie_grey 4 4 4); reflexivity.
Defined.

(** ** C3 *)

(** C3.  For channels in [0,255] on which the grey-axis branch is entered,
    the cube-side value of the comparison is (nb ? nb*40+55 : 0)/3 with [nb]
    the cube coordinate of the blue channel: whatever the red and green
    channels are, the accumulator holds the same value, and that value
    decides the result. *)
Theorem PuTTY_256_tc_blue_only (r g b : Z) :
  channel r -> channel g -> channel b ->
  grey_fires r g b = true ->
  let nb := cube_coord b in
  let tc := (if nb =? 0 then 0 else nb * 40 + 55) ÷ 3 in
  let tw := (r + g + b) ÷ 3 in
  grey_tc (cube_coord r) (cube_coord g) nb = tc
  /\ (forall r' g', grey_tc (cube_coord r') (cube_coord g') nb = tc)
  /\ PuTTY_256 r g b
     = if (tc - tw) * (tc - tw) >=? grey_sq_dist r g b
       then grey_nw (grey_tw r g b)
       else cube_index (cube_coord r) (cube_coord g) nb.
Proof.
  intros Hr Hg Hb Hfire. cbv zeta.
  destruct (cube_coord_spec b Hb) as [_ Hnb].
  assert (Htc : forall x y, grey_tc x y (cube_coord b)
                            = (if cube_coord b =? 0 then 0 else cube_coord b * 40 + 55) ÷ 3).
  { intros x y. now apply grey_tc_spec. }
  split; [apply Htc|]. split; [intros r' g'; apply Htc|].
  rewrite PuTTY_256_unfold, Hfire. unfold cube_sq_dist.
  destruct (grey_tw_spec r g b Hr Hg Hb) as [Htw Htwr].
  destruct (grey_tc_spec (cube_coord r) (cube_coord g) (cube_coord b) Hnb) as [Hc Hcr].
  rewrite <- Htw, <- Hc.
  set (tc := grey_tc _ _ _) in *. set (tw := grey_tw r g b) in *.
  pose proof (square_le (tc - tw) ltac:(lia)).
  unwrap. reflexivity.
Qed.

Lemma PuTTY_256_tc_blue_only_witness :
  let nb := cube_coord 128 in
  let tc := (if nb =? 0 then 0 else nb * 40 + 55) ÷ 3 in
  let tw := (128 + 128 + 128) ÷ 3 in
  grey_tc (cube_coord 128) (cube_coord 128) nb = tc
  /\ (forall r' g', grey_tc (cube_coord r') (cube_coord g') nb = tc)
  /\ PuTTY_256 128 128 128
     = if (tc - tw) * (tc - tw) >=? grey_sq_dist 128 128 128
       then grey_nw (grey_tw 128 128 128)
       else cube_index (cube_coord 128) (cube_coord 128) nb.
Proof.
  apply (PuTTY_256_tc_blue_only 128 128 128);
    [unfold channel; lia | unfold channel; lia | unfold channel; lia | reflexivity].
Defined.

(** ** C6 *)

Lemma PuTTY_256_in_palette (r g b : Z) :
  channel r -> channel g -> channel b -> palette_index (PuTTY_256 r g b).
Proof.
  intros Hr Hg Hb. rewrite PuTTY_256_unfold. unfold palette_index.
  destruct (cube_coord_spec r Hr) as [_ Hnr].
  destruct (cube_coord_spec g Hg) as [_ Hng].
  destruct (cube_coord_spec b Hb) as [_ Hnb].
  destruct (cube_index_range _ _ _ Hnr Hng Hnb) as [_ Hcube].
  destruct (grey_tw_spec r g b Hr Hg Hb) as [_ Htw].
  pose proof (grey_nw_range _ Htw) as Hnw.
  destruct (grey_fires r g b); [|lia].
  destruct (cube_sq_dist r g b >=? grey_sq_dist r g b); lia.
Qed.

(** C6.  For channels in [0,255] each of the three matchers returns an index
    in [16,255]; for [choose_XTterm256] this holds whatever <math.h>
    computes, because the first iteration always stores 16 and later ones
    store the loop variable. *)
Theorem matchers_in_palette (m : libm) (r g b : Z) :
  channel r -> channel g -> channel b ->
  palette_index (PuTTY_256 r g b)
  /\ palette_index (XTerm_256 r g b)
  /\ palette_index (choose_XTterm256 m r g b).
Proof.
  intros Hr Hg Hb. split; [now apply PuTTY_256_in_palette|]. split.
  - rewrite XTerm_256_search. apply search_in_palette.
  - rewrite choose_XTterm256_search. apply search_in_palette.
Qed.

Lemma matchers_in_palette_witness :
  palette_index (PuTTY_256 128 128 128)
  /\ palette_index (XTerm_256 128 128 128)
  /\ palette_index (choose_XTterm256 libm_sample 128 128 128).
Proof.
  apply (matchers_in_palette libm_sample 128 128 128); unfold channel; lia.
Defined.

(** ** C4 *)

(** C4, as stated, fails at (300,0,0): the red channel is out of range and
    the matchers return the computed indices 196 and 232; no code path yields
    an error. *)
Lemma XTerm_256_accepts_out_of_range :
  ~ channel 300
  /\ XTerm_256_outcome 300 0 0 = Index 196
  /\ PuTTY_256_outcome 300 0 0 = Index 232
  /\ ~ rejects_out_of_range XTerm_256_outcome
  /\ ~ rejects_out_of_range PuTTY_256_outcome.
Proof.
  assert (Hout : ~ (channel 300 /\ channel 0 /\ channel 0))
    by (unfold channel; lia).
  split; [unfold channel; lia|].
  split; [vm_compute; reflexivity|].
  split; [vm_compute; reflexivity|].
  split; intros H; specialize (H 300 0 0 Hout); vm_compute in H; discriminate H.
Qed.

(** C4, amended.  No matcher rejects anything: for every triple of integers,
    in range or not, each returns an index, and the two exhaustive searches
    return one in [16,255]. *)
Theorem matchers_never_reject (m : libm) (r g b : Z) :
  (exists c, PuTTY_256_outcome r g b = Index c)
  /\ (exists c, XTerm_256_outcome r g b = Index c /\ palette_index c)
  /\ (exists c, choose_XTterm256_outcome m r g b = Index c /\ palette_index c).
Proof.
  split; [eexists; reflexivity|]. split.
  - exists (XTerm_256 r g b). split; [reflexivity|].
    rewrite XTerm_256_search. apply search_in_palette.
  - exists (choose_XTterm256 m r g b). split; [reflexivity|].
    rewrite choose_XTterm256_search. apply search_in_palette.
Qed.

(** ** C9 *)

Lemma for_loop_ext_range {S : Type} (body1 body2 : Z -> S -> S) (n : nat) :
  forall lo st,
    (forall c st', lo <= c < lo + Z.of_nat n -> body1 c st' = body2 c st') ->
    for_loop n lo body1 st = for_loop n lo body2 st.
Proof.
  induction n as [|n IH]; intros lo st Hext.
  - reflexivity.
  - cbn [for_loop]. rewrite Hext by lia. apply IH.
    intros c st' Hc. apply Hext. lia.
Qed.

(** Two differences 0.00011 and 0.00019 are less than 1e-4 apart and are
    both stored as the integer 1. *)
Lemma truncation_merges_close_distances :
  Cdouble.to_int (Cdouble.of_int 10000 * 0.00011)%float = 1
  /\ Cdouble.to_int (Cdouble.of_int 10000 * 0.00019)%float = 1.
Proof. split; vm_compute; reflexivity. Qed.

(** ** C5 *)

(** C5.  With [pow(1, y) = 1], as the C standard requires,
    [sRGB_to_xyz(255,255,255)] is evaluated to the end.  [roundf] returns a
    [float] and the [int] divisor 10000 is converted to [float], so the
    division is carried out in single precision: X and Z come out as the
    binary32 neighbours of 95.047 and 108.883, which differ from the
    [double] constants [ref_X] and [ref_Z] of [xyz_to_lab]; only Y is
    exactly 100. *)
Theorem sRGB_to_xyz_white_single_precision (m : libm) :
  pow m 1 2.4 = 1%float ->
  let w := sRGB_to_xyz m 255 255 255 in
  w = {| xyz_X := 95.0469970703125; xyz_Y := 100; xyz_Z := 108.88300323486328 |}
  /\ (xyz_X w =? 95.047)%float = false
  /\ (xyz_Y w =? 100.000)%float = true
  /\ (xyz_Z w =? 108.883)%float = false.
Proof.
  intros Hpow.
  assert (Hw : sRGB_to_xyz m 255 255 255
               = {| xyz_X := 95.0469970703125; xyz_Y := 100;
                    xyz_Z := 108.88300323486328 |}).
  { unfold sRGB_to_xyz.
    replace (Cdouble.of_int 255 / 255.0)%float with 1%float by (vm_compute; reflexivity).
    replace (0.04045 <? 1)%float with true by (vm_compute; reflexivity).
    replace ((1 + 0.055) / 1.055)%float with 1%float by (vm_compute; reflexivity).
    cbv zeta. rewrite Hpow. vm_compute. reflexivity. }
  cbv zeta. rewrite Hw. cbn [xyz_X xyz_Y xyz_Z].
  repeat split; vm_compute; reflexivity.
Qed.

Lemma sRGB_to_xyz_white_single_precision_witness :
  let w := sRGB_to_xyz libm_sample 255 255 255 in
  w = {| xyz_X := 95.0469970703125; xyz_Y := 100; xyz_Z := 108.88300323486328 |}
  /\ (xyz_X w =? 95.047)%float = false
  /\ (xyz_Y w =? 100.000)%float = true
  /\ (xyz_Z w =? 108.883)%float = false.
Proof.
  apply (sRGB_to_xyz_white_single_precision libm_sample).
  vm_compute. reflexivity.
Defined.

(** * Further properties of rdb/colour_conv.c *)

(** ** The cube coordinates *)

(** X1.  Every index of the colour cube, 16..231, decodes to coordinates in
    [0,5] whose encoding is the index again. *)
Theorem cube_index_decode (c : Z) :
  16 <= c <= 231 ->
  let '(nr, ng, nb) := cube_decode c in
  (0 <= nr <= 5 /\ 0 <= ng <= 5 /\ 0 <= nb <= 5) /\ cube_index nr ng nb = c.
Proof.
  intros Hc. unfold cube_decode, cube_index. unwrap. lia.
Qed.

Lemma cube_index_decode_witness :
  let '(nr, ng, nb) := cube_decode 196 in
  (0 <= nr <= 5 /\ 0 <= ng <= 5 /\ 0 <= nb <= 5) /\ cube_index nr ng nb = 196.
Proof.
  apply (cube_index_decode 196). lia.
Defined.

(** X2.  For every palette index 16..255 the colour the search loops compute
    is the one of the palette model, and its three components are channel
    values in [0,255]: no step of the computation leaves the [int] range. *)
Theorem palette_rgb_model (c : Z) :
  palette_index c ->
  palette_rgb c = paletteEntryRgb c
  /\ (let '(pr, pg, pb) := palette_rgb c in channel pr /\ channel pg /\ channel pb).
Proof.
  intros Hc. split; [now apply palette_rgb_spec|].
  rewrite (palette_rgb_spec c Hc). now apply paletteEntryRgb_channels.
Qed.

Lemma palette_rgb_model_witness :
  palette_rgb 255 = paletteEntryRgb 255
  /\ (let '(pr, pg, pb) := palette_rgb 255 in channel pr /\ channel pg /\ channel pb).
Proof.
  apply (palette_rgb_model 255). unfold palette_index. lia.
Defined.

(** ** The analytic quantiser *)

Lemma cube_coord_cases (v : Z) :
  channel v ->
  (0 <= v <= 47 /\ cube_coord v = 0)
  \/ (48 <= v <= 115 /\ cube_coord v = 1)
  \/ (116 <= v <= 155 /\ cube_coord v = 2)
  \/ (156 <= v <= 195 /\ cube_coord v = 3)
  \/ (196 <= v <= 235 /\ cube_coord v = 4)
  \/ (236 <= v <= 255 /\ cube_coord v = 5).
Proof.
  intros Hv. destruct (cube_coord_spec v Hv) as [-> _]. unfold channel in Hv.
  destruct (Z.eqb_spec ((v - 36) ÷ 40) 0); lia.
Qed.

(** X3.  The per-channel rule [(v-36)/40], corrected by [(v+47)/95] when it
    gives 0, picks a cube level nearest to the channel value: no other level
    0..5 has a component closer to [v]. *)
Theorem cube_coord_nearest_level (v n : Z) :
  channel v -> 0 <= n <= 5 ->
  Z.abs (component (cube_coord v) - v) <= Z.abs (component n - v).
Proof.
  intros Hv Hn. unfold component.
  destruct (cube_coord_cases v Hv) as [H|[H|[H|[H|[H|H]]]]];
    destruct H as [Hr ->]; cbn [Z.eqb];
    destruct (Z.eqb_spec n 0); lia.
Qed.

Lemma cube_coord_nearest_level_witness :
  Z.abs (component (cube_coord 115) - 115) <= Z.abs (component 2 - 115).
Proof.
  apply (cube_coord_nearest_level 115 2); [unfold channel|]; lia.
Defined.

Lemma cube_coord_square (v n : Z) :
  channel v -> 0 <= n <= 5 ->
  (component (cube_coord v) - v) * (component (cube_coord v) - v)
  <= (component n - v) * (component n - v).
Proof.
  intros Hv Hn. unfold component.
  assert (Hcases : n = 0 \/ n = 1 \/ n = 2 \/ n = 3 \/ n = 4 \/ n = 5) by lia.
  destruct (cube_coord_cases v Hv) as [H|[H|[H|[H|[H|H]]]]];
    destruct H as [Hr ->];
    destruct Hcases as [->|[->|[->|[->|[->| ->]]]]]; cbn [Z.eqb]; nia.
Qed.

Lemma cube_coord_component (n : Z) :
  0 <= n <= 5 -> channel (component n) /\ cube_coord (component n) = n.
Proof.
  intros Hn. pose proof (component_channel n Hn) as Hc. split; [exact Hc|].
  destruct (cube_coord_cases (component n) Hc) as [H|[H|[H|[H|[H|H]]]]];
    destruct H as [Hr ->]; unfold component in Hr;
    destruct (Z.eqb_spec n 0); lia.
Qed.

(** The palette colour of a cube index, by coordinates. *)
Lemma paletteEntryRgb_cube_index (nr ng nb : Z) :
  0 <= nr <= 5 -> 0 <= ng <= 5 -> 0 <= nb <= 5 ->
  paletteEntryRgb (cube_index nr ng nb) = (component nr, component ng, component nb).
Proof.
  intros Hr Hg Hb. destruct (cube_index_range nr ng nb Hr Hg Hb) as [-> _].
  unfold paletteEntryRgb. destruct (Z.ltb_spec (16 + nb + ng * 6 + nr * 36) 232); [|lia].
  split_tuple; f_equal; lia.
Qed.

Lemma paletteEntryRgb_cube_coords (k : Z) :
  16 <= k <= 231 ->
  exists nr ng nb,
    0 <= nr <= 5 /\ 0 <= ng <= 5 /\ 0 <= nb <= 5
    /\ paletteEntryRgb k = (component nr, component ng, component nb).
Proof.
  intros Hk. exists ((k - 16) / 36), (((k - 16) / 6) mod 6), ((k - 16) mod 6).
  unfold paletteEntryRgb. destruct (Z.ltb_spec k 232); [|lia].
  repeat split; lia.
Qed.

(** ** The analytic matcher off and on the grey axis *)

(** X4.  For channels in [0,255] on which the grey-axis branch is not
    entered, [PuTTY_256] returns a cube index 16..231 whose colour is nearest
    to the input among all 216 cube colours. *)
Theorem PuTTY_256_nearest_cube (r g b : Z) :
  channel r -> channel g -> channel b ->
  grey_fires r g b = false ->
  let c := PuTTY_256 r g b in
  16 <= c <= 231
  /\ (forall k, 16 <= k <= 231 ->
                sq_dist (paletteEntryRgb c) (r, g, b)
                <= sq_dist (paletteEntryRgb k) (r, g, b)).
Proof.
  intros Hr Hg Hb Hgrey. cbv zeta. rewrite PuTTY_256_unfold, Hgrey.
  destruct (cube_coord_spec r Hr) as [_ Hnr].
  destruct (cube_coord_spec g Hg) as [_ Hng].
  destruct (cube_coord_spec b Hb) as [_ Hnb].
  split; [apply cube_index_range; assumption|].
  intros k Hk. rewrite paletteEntryRgb_cube_index by assumption.
  destruct (paletteEntryRgb_cube_coords k Hk) as (kr & kg & kb & Hkr & Hkg & Hkb & ->).
  unfold sq_dist.
  pose proof (cube_coord_square r kr Hr Hkr).
  pose proof (cube_coord_square g kg Hg Hkg).
  pose proof (cube_coord_square b kb Hb Hkb). lia.
Qed.

Lemma PuTTY_256_nearest_cube_witness :
  let c := PuTTY_256 200 30 90 in
  16 <= c <= 231
  /\ (forall k, 16 <= k <= 231 ->
                sq_dist (paletteEntryRgb c) (200, 30, 90)
                <= sq_dist (paletteEntryRgb k) (200, 30, 90)).
Proof.
  apply (PuTTY_256_nearest_cube 200 30 90);
    [unfold channel; lia | unfold channel; lia | unfold channel; lia
    | vm_compute; reflexivity].
Defined.

Lemma component_gap (n n' : Z) :
  0 <= n <= 5 -> 0 <= n' <= 5 -> n <> n' -> 40 <= Z.abs (component n - component n').
Proof.
  unfold component. intros Hn Hn' Hne.
  destruct (Z.eqb_spec n 0), (Z.eqb_spec n' 0); lia.
Qed.

(** X5.  A cube colour that is not a grey is a fixed point of the analytic
    matcher: for coordinates in [0,5] that are not all equal, [PuTTY_256] on
    the colour of cube entry (nr,ng,nb) returns 16 + nb + ng*6 + nr*36. *)
Theorem PuTTY_256_cube_colour_fixed (nr ng nb : Z) :
  0 <= nr <= 5 -> 0 <= ng <= 5 -> 0 <= nb <= 5 ->
  ~ (nr = ng /\ ng = nb) ->
  PuTTY_256 (component nr) (component ng) (component nb)
  = 16 + nb + ng * 6 + nr * 36.
Proof.
  intros Hr Hg Hb Hne. rewrite PuTTY_256_unfold.
  destruct (cube_coord_component nr Hr) as [Hcr Er].
  destruct (cube_coord_component ng Hg) as [Hcg Eg].
  destruct (cube_coord_component nb Hb) as [Hcb Eb].
  assert (Hgrey : grey_fires (component nr) (component ng) (component nb) = false).
  { unfold grey_fires, grey_test. rewrite Er, Eg, Eb.
    unfold channel in Hcr, Hcg, Hcb. unwrap.
    apply orb_false_iff. split.
    - destruct (Z.eq_dec nr ng) as [Hrg|Hrg].
      + assert (Hgb : ng <> nb) by lia.
        pose proof (component_gap ng nb Hg Hb Hgb).
        destruct (Z.ltb_spec (Z.abs (component ng - component nb)) 20); [lia|].
        now rewrite andb_false_r.
      + pose proof (component_gap nr ng Hr Hg Hrg).
        destruct (Z.ltb_spec (Z.abs (component nr - component ng)) 20); [lia|].
        reflexivity.
    - destruct (Z.eqb_spec nr ng), (Z.eqb_spec ng nb); try reflexivity. lia. }
  rewrite Hgrey, Er, Eg, Eb. now apply cube_index_range.
Qed.

Lemma PuTTY_256_cube_colour_fixed_witness :
  PuTTY_256 (component 5) (component 0) (component 3) = 16 + 3 + 0 * 6 + 5 * 36.
Proof.
  apply (PuTTY_256_cube_colour_fixed 5 0 3); lia.
Defined.

(** X6.  On the grey axis the analytic matcher has a closed form: for
    r = g = b = v in [0,255] it returns black, 16, when v < 4 and the grey-ramp
    index 232 + min(23, (v-4)/10) otherwise.  No cube grey other than black is
    ever returned; white, 255, goes to index 255, whose colour is
    (238,238,238), not to the cube's white 231. *)
Theorem PuTTY_256_grey_axis (v : Z) :
  channel v ->
  PuTTY_256 v v v = (if v <? 4 then 16 else 232 + Z.min 23 ((v - 4) / 10)).
Proof.
  unfold channel. intros Hv. apply Z.eqb_eq.
  apply (forallb_Zrange
           (fun v => PuTTY_256 v v v
                     =? (if v <? 4 then 16 else 232 + Z.min 23 ((v - 4) / 10)))
           0 256).
  - vm_compute. reflexivity.
  - simpl. lia.
Qed.

Lemma PuTTY_256_grey_axis_witness :
  PuTTY_256 255 255 255 = (if 255 <? 4 then 16 else 232 + Z.min 23 ((255 - 4) / 10)).
Proof.
  apply (PuTTY_256_grey_axis 255). unfold channel. lia.
Defined.

(** X7.  The greyscale candidate of the grey-axis branch is a ramp entry
    nearest to the channel average: for channels in [0,255], [nw] lies in
    [232,255], its grey level [tg] is 8 + 10*(nw-232), and no ramp level
    8 + 10*k, k in [0,23], is closer to [tw] than [tg]. *)
Theorem grey_candidate_nearest (r g b k : Z) :
  channel r -> channel g -> channel b -> 0 <= k <= 23 ->
  let tw := grey_tw r g b in
  let nw := grey_nw tw in
  232 <= nw <= 255
  /\ grey_tg nw = 8 + 10 * (nw - 232)
  /\ palette_rgb nw = (grey_tg nw, grey_tg nw, grey_tg nw)
  /\ Z.abs (grey_tg nw - tw) <= Z.abs (8 + 10 * k - tw).
Proof.
  intros Hr Hg Hb Hk. cbv zeta.
  destruct (grey_tw_spec r g b Hr Hg Hb) as [_ Htw].
  set (tw := grey_tw r g b) in *. clearbody tw.
  pose proof (grey_nw_range tw Htw) as Hnw.
  assert (Hnw' : grey_nw tw = if 232 + (tw - 4) ÷ 10 >? 255 then 255
                              else 232 + (tw - 4) ÷ 10).
  { unfold grey_nw. unwrap. reflexivity. }
  assert (Htg : grey_tg (grey_nw tw) = 8 + 10 * (grey_nw tw - 232)).
  { unfold grey_tg. unwrap. lia. }
  split; [exact Hnw|]. split; [exact Htg|]. split.
  - rewrite palette_rgb_grey by lia. unfold paletteEntryRgb.
    destruct (Z.ltb_spec (grey_nw tw) 232); [lia|]. cbv zeta.
    rewrite Htg. reflexivity.
  - rewrite Htg, Hnw'.
    destruct (Z.gtb_spec (232 + (tw - 4) ÷ 10) 255); lia.
Qed.

Lemma grey_candidate_nearest_witness :
  let tw := grey_tw 250 255 249 in
  let nw := grey_nw tw in
  232 <= nw <= 255
  /\ grey_tg nw = 8 + 10 * (nw - 232)
  /\ palette_rgb nw = (grey_tg nw, grey_tg nw, grey_tg nw)
  /\ Z.abs (grey_tg nw - tw) <= Z.abs (8 + 10 * 22 - tw).
Proof.
  apply (grey_candidate_nearest 250 255 249 22); unfold channel; lia.
Defined.

(** ** The exhaustive search beyond the channel range *)

Lemma square_le_wide (d : Z) : -26255 <= d <= 26255 -> 0 <= d * d <= 689325025.
Proof. intros H. nia. Qed.

Lemma XTerm_this_diff_wide (r g b c : Z) :
  -26000 <= r <= 26000 -> -26000 <= g <= 26000 -> -26000 <= b <= 26000 ->
  palette_index c ->
  XTerm_this_diff r g b c = sq_dist (paletteEntryRgb c) (r, g, b).
Proof.
  intros Hr Hg Hb Hc. unfold XTerm_this_diff.
  rewrite (palette_rgb_spec c Hc).
  pose proof (paletteEntryRgb_channels c Hc) as Hp.
  destruct (paletteEntryRgb c) as [[pr pg] pb]. unfold channel in Hp.
  destruct Hp as (Hpr & Hpg & Hpb). unfold sq_dist.
  pose proof (square_le_wide (pr - r) ltac:(lia)).
  pose proof (square_le_wide (pg - g) ltac:(lia)).
  pose proof (square_le_wide (pb - b) ltac:(lia)).
  unwrap. lia.
Qed.

(** X8.  The exhaustive search stays exact outside the channel range as long
    as the sum of squares fits an [int]: for arguments in [-26000, 26000]
    [XTerm_256] still returns the first index of 16..255 whose colour is at
    least squared distance from (r,g,b). *)
Theorem XTerm_256_first_argmin_wide (r g b : Z) :
  -26000 <= r <= 26000 -> -26000 <= g <= 26000 -> -26000 <= b <= 26000 ->
  let c := XTerm_256 r g b in
  palette_index c
  /\ (forall k, palette_index k ->
                sq_dist (paletteEntryRgb c) (r, g, b)
                <= sq_dist (paletteEntryRgb k) (r, g, b))
  /\ (forall k, 16 <= k < c ->
                sq_dist (paletteEntryRgb c) (r, g, b)
                < sq_dist (paletteEntryRgb k) (r, g, b)).
Proof.
  intros Hr Hg Hb. cbv zeta. rewrite XTerm_256_search.
  assert (Hpos : forall k, palette_index k -> 0 <= XTerm_this_diff r g b k).
  { intros k Hk. rewrite XTerm_this_diff_wide by assumption. apply sq_dist_nonneg. }
  destruct (search_first_min (XTerm_this_diff r g b) Hpos) as (Hc & Hmin & Hfirst).
  split; [exact Hc|]. split.
  - intros k Hk. rewrite <- !XTerm_this_diff_wide by assumption. now apply Hmin.
  - intros k Hk.
    rewrite <- !XTerm_this_diff_wide
      by (try assumption; unfold palette_index in *; lia).
    now apply Hfirst.
Qed.

Lemma XTerm_256_first_argmin_wide_witness :
  let c := XTerm_256 (-300) 26000 700 in
  palette_index c
  /\ (forall k, palette_index k ->
                sq_dist (paletteEntryRgb c) (-300, 26000, 700)
                <= sq_dist (paletteEntryRgb k) (-300, 26000, 700))
  /\ (forall k, 16 <= k < c ->
                sq_dist (paletteEntryRgb c) (-300, 26000, 700)
                < sq_dist (paletteEntryRgb k) (-300, 26000, 700)).
Proof.
  apply (XTerm_256_first_argmin_wide (-300) 26000 700); lia.
Defined.

(** X9.  The exhaustive matcher is never worse than the analytic one: for
    channels in [0,255] the colour of the index [XTerm_256] returns is at
    most as far from the input, in squared RGB distance, as the colour of the
    index [PuTTY_256] returns. *)
Theorem XTerm_256_not_worse (r g b : Z) :
  channel r -> channel g -> channel b ->
  sq_dist (paletteEntryRgb (XTerm_256 r g b)) (r, g, b)
  <= sq_dist (paletteEntryRgb (PuTTY_256 r g b)) (r, g, b).
Proof.
  intros Hr Hg Hb. rewrite XTerm_256_search.
  assert (Hpos : forall k, palette_index k -> 0 <= XTerm_this_diff r g b k).
  { intros k Hk. rewrite XTerm_this_diff_spec by assumption. apply sq_dist_nonneg. }
  destruct (search_first_min (XTerm_this_diff r g b) Hpos) as (Hc & Hmin & _).
  pose proof (PuTTY_256_in_palette r g b Hr Hg Hb) as Hp.
  specialize (Hmin _ Hp).
  now rewrite !XTerm_this_diff_spec in Hmin by assumption.
Qed.

Lemma XTerm_256_not_worse_witness :
  sq_dist (paletteEntryRgb (XTerm_256 255 255 255)) (255, 255, 255)
  <= sq_dist (paletteEntryRgb (PuTTY_256 255 255 255)) (255, 255, 255).
Proof.
  apply (XTerm_256_not_worse 255 255 255); unfold channel; lia.
Defined.

(** * The weighted search *)

(** ** Binary64 values in order *)

Lemma digits2_pos_bounds (p : positive) :
  2 ^ (Zpos (digits2_pos p) - 1) <= Zpos p < 2 ^ Zpos (digits2_pos p).
Proof.
  induction p as [p IH|p IH|]; cbn [digits2_pos].
  - rewrite Pos2Z.inj_succ.
    replace (Z.succ (Zpos (digits2_pos p)) - 1) with (Z.succ (Zpos (digits2_pos p) - 1)) by lia.
    rewrite !Z.pow_succ_r by lia. lia.
  - rewrite Pos2Z.inj_succ.
    replace (Z.succ (Zpos (digits2_pos p)) - 1) with (Z.succ (Zpos (digits2_pos p) - 1)) by lia.
    rewrite !Z.pow_succ_r by lia. lia.
  - cbn. lia.
Qed.

Lemma valid_finite (s : bool) (m : positive) (e : Z) :
  valid_binary (S754_finite s m e) = true ->
  -1074 <= e <= 971
  /\ Zpos m < 2 ^ 53
  /\ (-1074 < e -> 2 ^ 52 <= Zpos m).
Proof.
  unfold SpecFloat.valid_binary, bounded, canonical_mantissa, fexp, emin.
  change (3 - emax - prec) with (-1074). change (emax - prec) with 971.
  change prec with 53.
  intros H. apply andb_true_iff in H. destruct H as [Hc He].
  apply Z.eqb_eq in Hc. apply Z.leb_le in He.
  pose proof (digits2_pos_bounds m) as [Hlo Hhi].
  set (d := Zpos (digits2_pos m)) in *.
  assert (Hd : d <= 53) by lia.
  split; [lia|]. split.
  - apply Z.lt_le_trans with (2 ^ d); [exact Hhi|].
    apply Z.pow_le_mono_r; lia.
  - intros Hnorm. assert (d = 53) by lia.
    replace 52 with (d - 1) by lia. exact Hlo.
Qed.

Lemma finite_key_range (s : bool) (m : positive) (e : Z) :
  valid_binary (S754_finite s m e) = true ->
  0 < Zpos m * 2 ^ (e + 1074) < 2 ^ 2100.
Proof.
  intros Hv. destruct (valid_finite s m e Hv) as (He & Hm & _).
  assert (Hp : 0 < 2 ^ (e + 1074)) by (apply Z.pow_pos_nonneg; lia).
  split; [lia|].
  assert (Hq : 2 ^ (e + 1074) <= 2 ^ 2045) by (apply Z.pow_le_mono_r; lia).
  apply Z.lt_trans with (2 ^ 53 * 2 ^ 2045).
  - apply Z.le_lt_trans with (Zpos m * 2 ^ 2045).
    + apply Z.mul_le_mono_nonneg_l; lia.
    + apply Z.mul_lt_mono_pos_r; [apply Z.pow_pos_nonneg; lia | exact Hm].
  - rewrite <- Z.pow_add_r by lia. apply Z.pow_lt_mono_r; lia.
Qed.

Lemma finite_key_exp_lt (s1 s2 : bool) (m1 m2 : positive) (e1 e2 : Z) :
  valid_binary (S754_finite s1 m1 e1) = true ->
  valid_binary (S754_finite s2 m2 e2) = true ->
  e1 < e2 ->
  Zpos m1 * 2 ^ (e1 + 1074) < Zpos m2 * 2 ^ (e2 + 1074).
Proof.
  intros Hv1 Hv2 Hlt.
  destruct (valid_finite s1 m1 e1 Hv1) as (He1 & Hm1 & _).
  destruct (valid_finite s2 m2 e2 Hv2) as (He2 & _ & Hm2).
  specialize (Hm2 ltac:(lia)).
  replace (e2 + 1074) with ((e1 + 1074) + (e2 - e1)) by lia.
  rewrite (Z.pow_add_r 2 (e1 + 1074) (e2 - e1)) by lia.
  assert (Hp : 0 < 2 ^ (e1 + 1074)) by (apply Z.pow_pos_nonneg; lia).
  assert (Hq : 2 ^ 1 <= 2 ^ (e2 - e1)) by (apply Z.pow_le_mono_r; lia).
  change (2 ^ 1) with 2 in Hq. change (2 ^ 53) with (2 * 2 ^ 52) in Hm1.
  set (P := 2 ^ (e1 + 1074)) in *. set (Q := 2 ^ (e2 - e1)) in *.
  set (h := 2 ^ 52) in *.
  clearbody P Q h.
  assert (Zpos m1 * P < 2 * h * P) by (apply Z.mul_lt_mono_pos_r; assumption).
  assert (h * P <= Zpos m2 * P) by (apply Z.mul_le_mono_nonneg_r; lia).
  assert (Zpos m2 * P * 2 <= Zpos m2 * P * Q)
    by (apply Z.mul_le_mono_nonneg_l; [apply Z.mul_nonneg_nonneg; lia | exact Hq]).
  lia.
Qed.

Lemma finite_compare (s1 s2 : bool) (m1 m2 : positive) (e1 e2 : Z) :
  valid_binary (S754_finite s1 m1 e1) = true ->
  valid_binary (S754_finite s2 m2 e2) = true ->
  match e1 ?= e2 with
  | Lt => Lt
  | Gt => Gt
  | Eq => Pos.compare_cont Eq m1 m2
  end = (Zpos m1 * 2 ^ (e1 + 1074) ?= Zpos m2 * 2 ^ (e2 + 1074)).
Proof.
  intros Hv1 Hv2. destruct (Z.compare_spec e1 e2) as [->|Hlt|Hgt].
  - assert (Hp : 0 < 2 ^ (e2 + 1074))
      by (apply Z.pow_pos_nonneg; destruct (valid_finite s2 m2 e2 Hv2); lia).
    change (Pos.compare_cont Eq m1 m2) with (Pos.compare m1 m2).
    symmetry. destruct (Pos.compare_spec m1 m2) as [->|Hm|Hm].
    + apply Z.compare_refl.
    + apply Z.compare_lt_iff, Z.mul_lt_mono_pos_r; [exact Hp | lia].
    + apply Z.compare_gt_iff, Z.mul_lt_mono_pos_r; [exact Hp | lia].
  - symmetry. apply Z.compare_lt_iff. now apply (finite_key_exp_lt s1 s2).
  - symmetry. apply Z.compare_gt_iff. now apply (finite_key_exp_lt s2 s1).
Qed.

(** On valid values other than NaN, the IEEE comparison is the comparison of
    the integer images. *)
Lemma SFcompare_key (x y : spec_float) :
  valid_binary x = true -> valid_binary y = true ->
  sf_is_nan x = false -> sf_is_nan y = false ->
  SFcompare x y = Some (sf_key x ?= sf_key y).
Proof.
  intros Hx Hy Nx Ny.
  assert (HB : 0 < 2 ^ 2100) by (apply Z.pow_pos_nonneg; lia).
  destruct x as [sx|sx| |sx mx ex], y as [sy|sy| |sy my ey];
    try discriminate Nx; try discriminate Ny;
    cbn [SFcompare sf_key];
    try pose proof (finite_key_range sx mx ex Hx) as Hkx;
    try pose proof (finite_key_range sy my ey Hy) as Hky;
    set (B := 2 ^ 2100) in *; clearbody B.
  1-8: repeat match goal with s : bool |- _ => destruct s end;
    cbn [cond_Zopp]; apply f_equal; symmetry;
    first [ apply Z.compare_eq_iff; lia
          | apply Z.compare_lt_iff; lia
          | apply Z.compare_gt_iff; lia ].
  apply f_equal. destruct sx, sy; cbn [cond_Zopp].
  - rewrite Z.compare_opp, <- (finite_compare true true my mx ey ex Hy Hx).
    rewrite (Z.compare_antisym ey ex).
    destruct (ey ?= ex); cbn [CompOpp]; try reflexivity.
    rewrite (Pos.compare_cont_antisym mx my Eq). reflexivity.
  - symmetry. apply Z.compare_lt_iff. lia.
  - symmetry. apply Z.compare_gt_iff. lia.
  - apply (finite_compare false false); assumption.
Qed.

Lemma float_ltb_key (x y : float) :
  sf_is_nan (Prim2SF x) = false -> sf_is_nan (Prim2SF y) = false ->
  (x <? y)%float = (float_key x <? float_key y).
Proof.
  intros Nx Ny. rewrite ltb_spec. unfold SFltb, float_key.
  rewrite (SFcompare_key _ _ (Prim2SF_valid x) (Prim2SF_valid y) Nx Ny).
  destruct (Z.compare_spec (sf_key (Prim2SF x)) (sf_key (Prim2SF y)));
    destruct (Z.ltb_spec (sf_key (Prim2SF x)) (sf_key (Prim2SF y)));
    try reflexivity; lia.
Qed.

Lemma float_leb_key (x y : float) :
  sf_is_nan (Prim2SF x) = false -> sf_is_nan (Prim2SF y) = false ->
  (x <=? y)%float = (float_key x <=? float_key y).
Proof.
  intros Nx Ny. rewrite leb_spec. unfold SFleb, float_key.
  rewrite (SFcompare_key _ _ (Prim2SF_valid x) (Prim2SF_valid y) Nx Ny).
  destruct (Z.compare_spec (sf_key (Prim2SF x)) (sf_key (Prim2SF y)));
    destruct (Z.leb_spec (sf_key (Prim2SF x)) (sf_key (Prim2SF y)));
    try reflexivity; lia.
Qed.

Lemma sf_nonneg_spec (x : spec_float) :
  sf_nonneg x = true -> sf_is_nan x = false /\ 0 <= sf_key x.
Proof.
  destruct x as [s|s| |s m e]; cbn [sf_nonneg sf_is_nan sf_key]; intros H;
    try discriminate H; split; try reflexivity; try lia.
  - destruct s; [discriminate H|]. cbn [cond_Zopp]. apply Z.pow_nonneg. lia.
  - destruct s; [discriminate H|]. cbn [cond_Zopp].
    apply Z.mul_nonneg_nonneg; [lia | apply Z.pow_nonneg; lia].
Qed.

(** ** Rounding keeps the sign *)

Lemma shr_1_nonneg (mrs : shr_record) : 0 <= shr_m mrs -> 0 <= shr_m (shr_1 mrs).
Proof.
  destruct mrs as [m r s]. cbn [shr_m]. intros Hm.
  destruct m as [|p|p]; [| |lia]; cbn [shr_1 shr_m]; [lia|].
  destruct p; cbn [shr_m]; lia.
Qed.

Lemma iter_pos_shr_1_nonneg (n : positive) :
  forall mrs, 0 <= shr_m mrs -> 0 <= shr_m (iter_pos shr_1 n mrs).
Proof.
  induction n as [n IH|n IH|]; intros mrs Hm; cbn [iter_pos].
  - apply IH, IH, shr_1_nonneg, Hm.
  - apply IH, IH, Hm.
  - apply shr_1_nonneg, Hm.
Qed.

Lemma shr_fexp_nonneg (p e' : Z) (m e : Z) (l : location) :
  0 <= m -> 0 <= shr_m (fst (shr_fexp p e' m e l)).
Proof.
  intros Hm. unfold shr_fexp, shr.
  assert (H0 : 0 <= shr_m (shr_record_of_loc m l)).
  { destruct l as [|[| |]]; cbn [shr_record_of_loc shr_m]; exact Hm. }
  destruct (fexp p e' (Zdigits2 m + e) - e); cbn [fst]; try exact H0.
  now apply iter_pos_shr_1_nonneg.
Qed.

Lemma round_nearest_even_nonneg (m : Z) (l : location) :
  0 <= m -> 0 <= round_nearest_even m l.
Proof.
  intros Hm. unfold round_nearest_even.
  destruct l as [|[| |]]; try lia. destruct (Z.even m); lia.
Qed.

Lemma binary_round_aux_nonneg (mx ex : Z) (lx : location) :
  0 <= mx -> sf_nonneg (binary_round_aux prec emax false mx ex lx) = true.
Proof.
  intros Hm. unfold binary_round_aux.
  pose proof (shr_fexp_nonneg prec emax mx ex lx Hm) as H1.
  destruct (shr_fexp prec emax mx ex lx) as [mrs' e1]. cbn [fst] in H1.
  pose proof (shr_fexp_nonneg prec emax
                (round_nearest_even (shr_m mrs') (loc_of_shr_record mrs')) e1
                loc_Exact (round_nearest_even_nonneg _ _ H1)) as H2.
  destruct (shr_fexp prec emax _ e1 loc_Exact) as [mrs'' e2]. cbn [fst] in H2.
  destruct (shr_m mrs'') as [|p|p]; [reflexivity | | lia].
  destruct (e2 <=? emax - prec); reflexivity.
Qed.

Lemma binary_round_nonneg (m : positive) (e : Z) :
  sf_nonneg (binary_round prec emax false m e) = true.
Proof.
  unfold binary_round.
  destruct (shl_align m e (fexp prec emax (Zpos (digits2_pos m) + e))) as [mz ez].
  apply binary_round_aux_nonneg. lia.
Qed.

(** The sum of two values that are not negative and not NaN is not negative
    and not NaN. *)
Lemma SFadd_nonneg (x y : spec_float) :
  sf_nonneg x = true -> sf_nonneg y = true -> sf_nonneg (SF64add x y) = true.
Proof.
  unfold SF64add.
  destruct x as [sx|sx| |sx mx ex], y as [sy|sy| |sy my ey];
    cbn [sf_nonneg SFadd]; intros Hx Hy;
    try discriminate Hx; try discriminate Hy;
    repeat match goal with
           | s : bool |- _ => destruct s; try discriminate Hx; try discriminate Hy
           end;
    try reflexivity.
  cbn [cond_Zopp]. unfold binary_normalize.
  change (Zpos (fst (shl_align mx ex (Z.min ex ey)))
          + Zpos (fst (shl_align my ey (Z.min ex ey))))
    with (Zpos (fst (shl_align mx ex (Z.min ex ey))
                + fst (shl_align my ey (Z.min ex ey)))).
  apply binary_round_nonneg.
Qed.

Lemma float_add_nonneg (x y : float) :
  sf_nonneg (Prim2SF x) = true -> sf_nonneg (Prim2SF y) = true ->
  sf_nonneg (Prim2SF (x + y)) = true.
Proof.
  intros Hx Hy. rewrite add_spec. now apply SFadd_nonneg.
Qed.

(** ** The weighted loop *)

Lemma XTerm_256_unused_body_step (r g b c : Z) (st : weighted_state) :
  XTerm_256_unused_body r g b c st
  = weighted_body (weighted_this_diff r g b) c st.
Proof.
  unfold XTerm_256_unused_body, weighted_body, weighted_step, weighted_this_diff,
    palette_rgb.
  destruct (c <? 232); reflexivity.
Qed.

Lemma XTerm_256_unused_search (r g b : Z) :
  XTerm_256_unused r g b
  = nearest_weighted
      (for_loop 240 16 (weighted_body (weighted_this_diff r g b)) weighted_init).
Proof.
  unfold XTerm_256_unused.
  now rewrite (for_loop_ext _ _ (XTerm_256_unused_body_step r g b)).
Qed.

Lemma weighted_init_replaced (x : float) (c : Z) :
  weighted_step x c weighted_init = {| best_weighted := x; nearest_weighted := c |}.
Proof.
  unfold weighted_step, weighted_init. cbn [best_weighted].
  replace (Cdouble.of_int (-1) <? Cdouble.of_int 0)%float with true
    by (vm_compute; reflexivity).
  reflexivity.
Qed.

Section WeightedLoop.

Variable diff : Z -> float.

Lemma weighted_visited_step (c : Z) (st : weighted_state) :
  16 <= c -> weighted_visited c st -> weighted_visited (c + 1) (weighted_body diff c st).
Proof.
  intros Hc Hv. right. unfold weighted_body.
  destruct Hv as [[_ ->]|Hv].
  - rewrite weighted_init_replaced. cbn [nearest_weighted]. lia.
  - unfold weighted_step.
    destruct ((best_weighted st <? Cdouble.of_int 0)%float
              || (diff c <? best_weighted st)%float);
      cbn [nearest_weighted]; lia.
Qed.

Lemma weighted_visited_loop (n : nat) :
  forall c st, 16 <= c -> weighted_visited c st ->
               weighted_visited (c + Z.of_nat n) (for_loop n c (weighted_body diff) st).
Proof.
  induction n as [|n IH]; intros c st Hc Hv.
  - simpl. now rewrite Z.add_0_r.
  - cbn [for_loop].
    replace (c + Z.of_nat (S n)) with ((c + 1) + Z.of_nat n) by lia.
    apply IH; [lia | now apply weighted_visited_step].
Qed.

Lemma weighted_in_palette :
  palette_index (nearest_weighted (for_loop 240 16 (weighted_body diff) weighted_init)).
Proof.
  pose proof (weighted_visited_loop 240 16 weighted_init ltac:(lia)
                (or_introl (conj eq_refl eq_refl))) as [[H _]|H];
    unfold palette_index; lia.
Qed.

Hypothesis diff_nonneg :
  forall k, palette_index k -> sf_nonneg (Prim2SF (diff k)) = true.

Lemma weighted_first_min_step (c : Z) (st : weighted_state) :
  palette_index c ->
  weighted_first_min diff c st -> weighted_first_min diff (c + 1) (weighted_body diff c st).
Proof.
  unfold palette_index. intros Hc Hinv. right. unfold weighted_body.
  destruct Hinv as [[-> ->]|(Hn & Hb & Hall & Hbefore)].
  - rewrite weighted_init_replaced. cbn [best_weighted nearest_weighted].
    repeat split; try lia.
    intros k Hk. replace k with 16 by lia. lia.
  - destruct (sf_nonneg_spec _ (diff_nonneg (nearest_weighted st)
                                  ltac:(unfold palette_index; lia)))
      as [Nb Kb].
    rewrite <- Hb in Nb, Kb. fold (float_key (best_weighted st)) in Kb.
    destruct (sf_nonneg_spec _ (diff_nonneg c ltac:(unfold palette_index; lia)))
      as [Nc _].
    unfold weighted_step.
    rewrite (float_ltb_key (best_weighted st) (Cdouble.of_int 0) Nb eq_refl).
    rewrite (float_ltb_key (diff c) (best_weighted st) Nc Nb).
    change (float_key (Cdouble.of_int 0)) with 0.
    destruct (Z.ltb_spec (float_key (best_weighted st)) 0) as [|_]; [lia|].
    cbn [orb].
    destruct (Z.ltb_spec (float_key (diff c)) (float_key (best_weighted st)))
      as [Hlt|Hge]; cbn [best_weighted nearest_weighted].
    + repeat split; try lia.
      * intros k Hk. destruct (Z.eq_dec k c) as [->|Hne]; [lia|].
        specialize (Hall k ltac:(lia)). lia.
      * intros k Hk. specialize (Hall k ltac:(lia)). lia.
    + repeat split; try lia; try assumption.
      intros k Hk. destruct (Z.eq_dec k c) as [->|Hne]; [lia|].
      apply Hall. lia.
Qed.

Lemma weighted_first_min_loop (n : nat) :
  forall c st, 16 <= c -> c + Z.of_nat n <= 256 ->
               weighted_first_min diff c st ->
               weighted_first_min diff (c + Z.of_nat n)
                 (for_loop n c (weighted_body diff) st).
Proof.
  induction n as [|n IH]; intros c st Hc Hn Hinv.
  - simpl. now rewrite Z.add_0_r.
  - cbn [for_loop].
    replace (c + Z.of_nat (S n)) with ((c + 1) + Z.of_nat n) by lia.
    apply IH; [lia | lia |].
    apply weighted_first_min_step; [unfold palette_index; lia | assumption].
Qed.

Lemma weighted_search_first_min :
  let c := nearest_weighted (for_loop 240 16 (weighted_body diff) weighted_init) in
  palette_index c
  /\ (forall k, palette_index k -> (diff c <=? diff k)%float = true)
  /\ (forall k, 16 <= k < c -> (diff c <? diff k)%float = true).
Proof.
  pose proof (weighted_first_min_loop 240 16 weighted_init ltac:(lia) ltac:(lia)
                (or_introl (conj eq_refl eq_refl))) as H.
  destruct H as [[H _]|(Hn & Hb & Hall & Hbefore)]; [lia|].
  cbv zeta. rewrite <- Hb.
  set (st := for_loop 240 16 (weighted_body diff) weighted_init) in *.
  change (16 + Z.of_nat 240) with 256 in *.
  assert (Hc : palette_index (nearest_weighted st)) by (unfold palette_index; lia).
  destruct (sf_nonneg_spec _ (diff_nonneg _ Hc)) as [Nb _]. rewrite <- Hb in Nb.
  split; [exact Hc|]. split.
  - intros k Hk. destruct (sf_nonneg_spec _ (diff_nonneg k Hk)) as [Nk _].
    rewrite (float_leb_key _ _ Nb Nk). apply Z.leb_le.
    apply Hall. unfold palette_index in Hk. lia.
  - intros k Hk.
    destruct (sf_nonneg_spec _ (diff_nonneg k ltac:(unfold palette_index; lia)))
      as [Nk _].
    rewrite (float_ltb_key _ _ Nb Nk). apply Z.ltb_lt. now apply Hbefore.
Qed.

End WeightedLoop.

(** ** The weighted differences *)

Lemma weighted_term_nonneg (d : Z) :
  -255 <= d <= 255 ->
  sf_nonneg (Prim2SF ((Cdouble.of_int d * 0.30) * (Cdouble.of_int d * 0.30))) = true
  /\ sf_nonneg (Prim2SF ((Cdouble.of_int d * 0.61) * (Cdouble.of_int d * 0.61))) = true
  /\ sf_nonneg (Prim2SF ((Cdouble.of_int d * 0.11) * (Cdouble.of_int d * 0.11))) = true.
Proof.
  intros Hd.
  pose proof (forallb_Zrange
    (fun d =>
       sf_nonneg (Prim2SF ((Cdouble.of_int d * 0.30) * (Cdouble.of_int d * 0.30)))
       && sf_nonneg (Prim2SF ((Cdouble.of_int d * 0.61) * (Cdouble.of_int d * 0.61)))
       && sf_nonneg (Prim2SF ((Cdouble.of_int d * 0.11) * (Cdouble.of_int d * 0.11))))
    (-255) 511) as H.
  specialize (H ltac:(vm_compute; reflexivity) d ltac:(simpl; lia)).
  cbv beta in H. apply andb_true_iff in H. destruct H as [H H3].
  apply andb_true_iff in H. destruct H as [H1 H2]. auto.
Qed.

(** For channels in [0,255] the weighted difference is a number that is not
    negative. *)
Lemma weighted_this_diff_nonneg (r g b c : Z) :
  channel r -> channel g -> channel b -> palette_index c ->
  sf_nonneg (Prim2SF (weighted_this_diff r g b c)) = true.
Proof.
  unfold channel. intros Hr Hg Hb Hc. unfold weighted_this_diff.
  rewrite (palette_rgb_spec c Hc).
  pose proof (paletteEntryRgb_channels c Hc) as Hp.
  destruct (paletteEntryRgb c) as [[pr pg] pb]. unfold channel in Hp.
  destruct Hp as (Hpr & Hpg & Hpb).
  unwrap. cbv zeta.
  destruct (weighted_term_nonneg (pr - r) ltac:(lia)) as (Tr & _ & _).
  destruct (weighted_term_nonneg (pg - g) ltac:(lia)) as (_ & Tg & _).
  destruct (weighted_term_nonneg (pb - b) ltac:(lia)) as (_ & _ & Tb).
  repeat apply float_add_nonneg; try assumption.
  vm_compute. reflexivity.
Qed.

(** ** XTerm_256_unused *)

(** X10.  [XTerm_256_unused] returns an index in [16,255] for every triple
    of [int] arguments, whatever the [double] differences come out as. *)
Theorem XTerm_256_unused_in_palette (r g b : Z) :
  palette_index (XTerm_256_unused r g b).
Proof.
  rewrite XTerm_256_unused_search. apply weighted_in_palette.
Qed.

(** X11.  For channels in [0,255] [XTerm_256_unused] returns the first index
    of 16..255 that minimises the weighted difference
    (0.30 dr)^2 + (0.61 dg)^2 + (0.11 db)^2 as the code computes it in
    [double]: the one returned compares [<=] every candidate and [<] every
    earlier candidate. *)
Theorem XTerm_256_unused_first_argmin (r g b : Z) :
  channel r -> channel g -> channel b ->
  let c := XTerm_256_unused r g b in
  palette_index c
  /\ (forall k, palette_index k ->
                (weighted_this_diff r g b c <=? weighted_this_diff r g b k)%float = true)
  /\ (forall k, 16 <= k < c ->
                (weighted_this_diff r g b c <? weighted_this_diff r g b k)%float = true).
Proof.
  intros Hr Hg Hb. cbv zeta. rewrite XTerm_256_unused_search.
  apply (weighted_search_first_min (weighted_this_diff r g b)).
  intros k Hk. now apply weighted_this_diff_nonneg.
Qed.

Lemma XTerm_256_unused_first_argmin_witness :
  let c := XTerm_256_unused 10 200 30 in
  palette_index c
  /\ (forall k, palette_index k ->
                (weighted_this_diff 10 200 30 c <=? weighted_this_diff 10 200 30 k)%float
                = true)
  /\ (forall k, 16 <= k < c ->
                (weighted_this_diff 10 200 30 c <? weighted_this_diff 10 200 30 k)%float
                = true).
Proof.
  apply (XTerm_256_unused_first_argmin 10 200 30); unfold channel; lia.
Defined.

(** X12.  On the colour of a palette entry the weighted search returns
    that entry: for every index [c] of 16..255, [XTerm_256_unused] applied to
    the colour of [c] is [c]. *)
Theorem XTerm_256_unused_palette_fixed (c : Z) :
  palette_index c ->
  (let '(r, g, b) := palette_rgb c in XTerm_256_unused r g b) = c.
Proof.
  unfold palette_index. intros Hc. apply Z.eqb_eq.
  apply (forallb_Zrange
           (fun c => (let '(r, g, b) := palette_rgb c in XTerm_256_unused r g b) =? c)
           16 240).
  - vm_compute. reflexivity.
  - simpl. lia.
Qed.

Lemma XTerm_256_unused_palette_fixed_witness :
  (let '(r, g, b) := palette_rgb 59 in XTerm_256_unused r g b) = 59.
Proof.
  apply (XTerm_256_unused_palette_fixed 59). unfold palette_index. lia.
Defined.

(** * Further properties of rdb/evil_colour.c *)

(** ** The sign of a square root *)

Lemma SFsqrt_sign (x : spec_float) :
  sf_is_nan (SF64sqrt x) = true \/ sf_nonneg (SF64sqrt x) = true.
Proof.
  unfold SF64sqrt. destruct x as [s|s| |s m e]; cbn [SFsqrt sf_is_nan sf_nonneg].
  - right. reflexivity.
  - destruct s; [left | right]; reflexivity.
  - left. reflexivity.
  - destruct s; [left; reflexivity|]. right.
    unfold SFsqrt_core_binary.
    set (e' := Z.min _ _). set (m' := match e - 2 * e' with Z0 => _ | _ => _ end).
    assert (Hm' : 0 <= m').
    { subst m'. destruct (e - 2 * e'); [lia | | lia]. apply Z.shiftl_nonneg. lia. }
    pose proof (Z.sqrtrem_spec m' Hm') as Hs.
    destruct (Z.sqrtrem m') as [q r].
    apply binary_round_aux_nonneg. lia.
Qed.

Lemma float_sqrt_not_below_zero (x : float) : (sqrt x <? 0)%float = false.
Proof.
  destruct (SFsqrt_sign (Prim2SF x)) as [Hnan|Hpos]; rewrite <- sqrt_spec in *.
  - rewrite ltb_spec. unfold SFltb.
    destruct (Prim2SF (sqrt x)); try discriminate Hnan. reflexivity.
  - destruct (sf_nonneg_spec _ Hpos) as [Hn Hk].
    rewrite (float_ltb_key (sqrt x) 0 Hn eq_refl).
    change (float_key 0) with 0. apply Z.ltb_ge. exact Hk.
Qed.

(** X13.  [deltaE2000] never returns a number below zero: its result is
    the [sqrt] of a [double], which is NaN or compares [>= 0], whatever the
    arguments and whatever the <math.h> routines compute.  The same holds
    for [rgbCIEDE2000]. *)
Theorem deltaE2000_not_below_zero (m : libm) (lab1 lab2 : float * float * float)
        (r g b r' g' b' : Z) :
  (deltaE2000 m lab1 lab2 <? 0)%float = false
  /\ (rgbCIEDE2000 m r g b r' g' b' <? 0)%float = false.
Proof.
  assert (H : forall l1 l2, (deltaE2000 m l1 l2 <? 0)%float = false).
  { intros [[L1 a1] b1] [[L2 a2] b2]. unfold deltaE2000. cbv zeta.
    apply float_sqrt_not_below_zero. }
  split; [apply H|]. unfold rgbCIEDE2000. cbv zeta. apply H.
Qed.

(** ** Dark colours and the black point *)

Lemma gamma_linear_below_11 (v : Z) :
  0 <= v <= 10 -> (0.04045 <? Cdouble.of_int v / 255.0)%float = false.
Proof.
  intros Hv. apply negb_true_iff.
  apply (forallb_Zrange
           (fun v => negb (0.04045 <? Cdouble.of_int v / 255.0)%float) 0 11).
  - vm_compute. reflexivity.
  - simpl. lia.
Qed.

Lemma forallb_Zrange3 (p : Z -> Z -> Z -> bool) (lo : Z) (n : nat) :
  forallb (fun x => forallb (fun y => forallb (p x y) (Zrange lo n)) (Zrange lo n))
          (Zrange lo n) = true ->
  forall x y z,
    lo <= x < lo + Z.of_nat n -> lo <= y < lo + Z.of_nat n ->
    lo <= z < lo + Z.of_nat n -> p x y z = true.
Proof.
  intros H x y z Hx Hy Hz.
  pose proof (forallb_Zrange _ lo n H x Hx) as H1. cbv beta in H1.
  pose proof (forallb_Zrange _ lo n H1 y Hy) as H2. cbv beta in H2.
  exact (forallb_Zrange _ lo n H2 z Hz).
Qed.

Lemma sRGB_to_xyz_dark (m : libm) (r g b : Z) :
  0 <= r <= 10 -> 0 <= g <= 10 -> 0 <= b <= 10 ->
  sRGB_to_xyz m r g b = sRGB_to_xyz libm_sample r g b.
Proof.
  intros Hr Hg Hb. unfold sRGB_to_xyz. cbv zeta.
  rewrite !(gamma_linear_below_11 r Hr), !(gamma_linear_below_11 g Hg),
    !(gamma_linear_below_11 b Hb).
  reflexivity.
Qed.

Lemma xyz_to_lab_dark_linear (r g b : Z) :
  0 <= r <= 10 -> 0 <= g <= 10 -> 0 <= b <= 10 ->
  let c := sRGB_to_xyz libm_sample r g b in
  (0.008856 <? xyz_X c / 95.047)%float = false
  /\ (0.008856 <? xyz_Y c / 100.000)%float = false
  /\ (0.008856 <? xyz_Z c / 108.883)%float = false.
Proof.
  intros Hr Hg Hb.
  pose proof (forallb_Zrange3
    (fun r g b =>
       let c := sRGB_to_xyz libm_sample r g b in
       negb (0.008856 <? xyz_X c / 95.047)%float
       && negb (0.008856 <? xyz_Y c / 100.000)%float
       && negb (0.008856 <? xyz_Z c / 108.883)%float) 0 11) as H.
  specialize (H ltac:(vm_compute; reflexivity) r g b
                ltac:(simpl; lia) ltac:(simpl; lia) ltac:(simpl; lia)).
  cbv beta zeta in H. cbv zeta.
  apply andb_true_iff in H. destruct H as [H H3].
  apply andb_true_iff in H. destruct H as [H1 H2].
  apply negb_true_iff in H1, H2, H3. auto.
Qed.

(** X14.  For channels 0..10 the conversion from RGB to XYZ and on to Lab
    takes the linear arm of both gamma tests and never calls [pow]: the
    results are the same for every implementation of <math.h>. *)
Theorem dark_colours_without_pow (m m' : libm) (r g b : Z) :
  0 <= r <= 10 -> 0 <= g <= 10 -> 0 <= b <= 10 ->
  sRGB_to_xyz m r g b = sRGB_to_xyz m' r g b
  /\ xyz_to_lab m (sRGB_to_xyz m r g b) = xyz_to_lab m' (sRGB_to_xyz m' r g b).
Proof.
  intros Hr Hg Hb.
  rewrite (sRGB_to_xyz_dark m r g b Hr Hg Hb), (sRGB_to_xyz_dark m' r g b Hr Hg Hb).
  split; [reflexivity|].
  destruct (xyz_to_lab_dark_linear r g b Hr Hg Hb) as (HX & HY & HZ).
  cbv zeta in HX, HY, HZ. unfold xyz_to_lab. cbv zeta.
  rewrite !HX, !HY, !HZ. reflexivity.
Qed.

Lemma dark_colours_without_pow_witness :
  sRGB_to_xyz libm_sample 10 0 7
  = sRGB_to_xyz (mk_libm (fun _ _ => 0%float) (fun _ _ => 0%float)
                         (fun _ => 0%float) (fun _ => 0%float) (fun _ => 0%float))
                10 0 7
  /\ xyz_to_lab libm_sample (sRGB_to_xyz libm_sample 10 0 7)
     = xyz_to_lab (mk_libm (fun _ _ => 0%float) (fun _ _ => 0%float)
                           (fun _ => 0%float) (fun _ => 0%float) (fun _ => 0%float))
         (sRGB_to_xyz (mk_libm (fun _ _ => 0%float) (fun _ _ => 0%float)
                               (fun _ => 0%float) (fun _ => 0%float)
                               (fun _ => 0%float))
                      10 0 7).
Proof.
  apply (dark_colours_without_pow libm_sample _ 10 0 7); lia.
Defined.

(** Black is converted exactly: [sRGB_to_xyz(0,0,0)] is XYZ (0,0,0) and
    [xyz_to_lab] of it is Lab (0,0,0), for every implementation of
    <math.h>. *)
Lemma black_point (m : libm) :
  sRGB_to_xyz m 0 0 0 = {| xyz_X := 0; xyz_Y := 0; xyz_Z := 0 |}
  /\ xyz_to_lab m (sRGB_to_xyz m 0 0 0) = {| lab_L := 0; lab_a := 0; lab_b := 0 |}.
Proof.
  assert (H : sRGB_to_xyz m 0 0 0 = {| xyz_X := 0; xyz_Y := 0; xyz_Z := 0 |}).
  { rewrite (sRGB_to_xyz_dark m 0 0 0) by lia. vm_compute. reflexivity. }
  split; [exact H|]. rewrite H. vm_compute. reflexivity.
Qed.

(** * The perceptual search and the distance it truncates *)

(** ** NaN and sign through the IEEE operations *)

Lemma float_ltb_not_nan (x y : float) :
  (x <? y)%float = true ->
  sf_is_nan (Prim2SF x) = false /\ sf_is_nan (Prim2SF y) = false.
Proof.
  rewrite ltb_spec. unfold SFltb.
  destruct (Prim2SF x) as [sx|sx| |sx mx ex], (Prim2SF y) as [sy|sy| |sy my ey];
    cbn [SFcompare sf_is_nan]; intros H; try discriminate H; split; reflexivity.
Qed.





Lemma float_mul_nan_r (x y : float) :
  sf_is_nan (Prim2SF y) = true -> sf_is_nan (Prim2SF (x * y)) = true.
Proof.
  rewrite mul_spec. unfold SF64mul.
  destruct (Prim2SF y); intros H; try discriminate H.
  destruct (Prim2SF x); reflexivity.
Qed.





(** ** C7 *)



(** ** The conversion to [int] *)

Lemma choose_this_diff_scaled (m : libm) (r g b c : Z) :
  choose_this_diff m r g b c = Cdouble.to_int (choose_scaled m r g b c).
Proof.
  unfold choose_this_diff, choose_scaled. now destruct (palette_rgb c) as [[nr ng] nb].
Qed.

Lemma SFmul_positive_nonneg (mx : positive) (ex : Z) (y : spec_float) :
  sf_nonneg y = true ->
  sf_nonneg (SF64mul (S754_finite false mx ex) y) = true.
Proof.
  unfold SF64mul. destruct y as [s|s| |s my ey]; cbn [sf_nonneg SFmul xorb];
    intros H; try discriminate H; try exact H.
  destruct s; [discriminate H|]. apply binary_round_aux_nonneg. lia.
Qed.

(** The scaled distance is NaN or not negative. *)
Lemma choose_scaled_sign (m : libm) (r g b c : Z) :
  sf_is_nan (Prim2SF (choose_scaled m r g b c)) = true
  \/ sf_nonneg (Prim2SF (choose_scaled m r g b c)) = true.
Proof.
  unfold choose_scaled. destruct (palette_rgb c) as [[nr ng] nb].
  unfold rgbCIEDE2000. cbv zeta.
  set (l1 := (_, _, _)). set (l2 := (_, _, _)).
  assert (Hd : sf_is_nan (Prim2SF (deltaE2000 m l1 l2)) = true
               \/ sf_nonneg (Prim2SF (deltaE2000 m l1 l2)) = true).
  { destruct l1 as [[L1 a1] b1], l2 as [[L2 a2] b2]. unfold deltaE2000. cbv zeta.
    rewrite sqrt_spec. apply SFsqrt_sign. }
  destruct Hd as [Hn|Hp].
  - left. now apply float_mul_nan_r.
  - right. rewrite mul_spec.
    replace (Prim2SF (Cdouble.of_int 10000))
      with (S754_finite false 5497558138880000 (-39)) by (vm_compute; reflexivity).
    now apply SFmul_positive_nonneg.
Qed.

(** A [double] that is not negative and below 2^31 is converted to its
    integer part: the quotient of its image under [float_key], which is the
    value times 2^1074, by 2^1074. *)
Lemma to_int_floor (x : float) :
  sf_nonneg (Prim2SF x) = true ->
  (x <? 2147483648)%float = true ->
  Cdouble.to_int x = float_key x / 2 ^ 1074 /\ 0 <= Cdouble.to_int x.
Proof.
  intros Hp Hlt.
  destruct (float_ltb_not_nan _ _ Hlt) as [Nx Nb].
  rewrite (float_ltb_key _ _ Nx Nb) in Hlt. apply Z.ltb_lt in Hlt.
  replace (float_key 2147483648) with (2 ^ 31 * 2 ^ 1074) in Hlt
    by (vm_compute; reflexivity).
  pose proof (Prim2SF_valid x) as Hv.
  unfold Cdouble.to_int, float_key in *.
  assert (H1074 : 0 < 2 ^ 1074) by (apply Z.pow_pos_nonneg; lia).
  destruct (Prim2SF x) as [s|s| |s mx ex]; cbn [sf_nonneg sf_key] in *;
    try discriminate Hp.
  - rewrite Z.div_0_l by lia. lia.
  - destruct s; [discriminate Hp|]. cbn [cond_Zopp] in Hlt.
    assert (2 ^ 31 * 2 ^ 1074 < 2 ^ 2100).
    { rewrite <- Z.pow_add_r by lia. apply Z.pow_lt_mono_r; lia. }
    lia.
  - destruct s; [discriminate Hp|]. cbn [cond_Zopp] in *.
    destruct (valid_finite false mx ex Hv) as (He & _ & _).
    set (K := 2 ^ 1074) in *.
    assert (Hmag : (if 0 <=? ex then Zpos mx * 2 ^ ex else Zpos mx / 2 ^ (- ex))
                   = Zpos mx * 2 ^ (ex + 1074) / K
                   /\ 0 <= Zpos mx * 2 ^ (ex + 1074) / K < 2 ^ 31).
    { assert (Hq : 0 <= Zpos mx * 2 ^ (ex + 1074) / K < 2 ^ 31).
      { split.
        - apply Z.div_pos; [|exact H1074].
          apply Z.mul_nonneg_nonneg; [lia | apply Z.pow_nonneg; lia].
        - apply Z.div_lt_upper_bound; [exact H1074 | lia]. }
      split; [|exact Hq].
      destruct (Z.leb_spec 0 ex) as [Hex|Hex].
      - rewrite Z.pow_add_r by lia. fold K.
        rewrite Z.mul_assoc, Z.div_mul by lia. reflexivity.
      - assert (HK : K = 2 ^ (- ex) * 2 ^ (ex + 1074)).
        { unfold K. rewrite <- Z.pow_add_r by lia. f_equal. lia. }
        rewrite HK. symmetry. apply Z.div_mul_cancel_r.
        + apply Z.pow_nonzero; lia.
        + apply Z.pow_nonzero; lia. }
    destruct Hmag as [-> Hq].
    set (z := Zpos mx * 2 ^ (ex + 1074) / K) in *.
    unfold Cint.min_int, Cint.max_int.
    destruct (Z.leb_spec (- 2 ^ 31) z); [|lia].
    destruct (Z.leb_spec z (2 ^ 31 - 1)); [|lia].
    cbn [andb]. lia.
Qed.

Lemma choose_scaled_distance (m : libm) (r g b c : Z) :
  choose_scaled m r g b c = (Cdouble.of_int 10000 * choose_distance m r g b c)%float.
Proof.
  unfold choose_scaled, choose_distance. now destruct (palette_rgb c) as [[nr ng] nb].
Qed.

(** When the scaled distance is below 2^31 the stored difference is its
    integer part, and is not negative. *)
Lemma choose_this_diff_floor (m : libm) (r g b k : Z) :
  (Cdouble.of_int 10000 * choose_distance m r g b k <? 2147483648)%float = true ->
  choose_this_diff m r g b k
  = float_key (Cdouble.of_int 10000 * choose_distance m r g b k) / 2 ^ 1074
  /\ 0 <= choose_this_diff m r g b k.
Proof.
  rewrite <- choose_scaled_distance, choose_this_diff_scaled. intros Hlt.
  apply to_int_floor; [|exact Hlt].
  destruct (choose_scaled_sign m r g b k) as [Hn|Hp]; [|exact Hp].
  destruct (float_ltb_not_nan _ _ Hlt) as [Nx _]. congruence.
Qed.

(** ** C9 *)

(** C9.  [choose_XTterm256] does not compare CIEDE2000 distances but the
    integers [(int)(10000 * distance)].

    First part, for every <math.h> and every input on which each scaled
    distance is below 2^31, so that its conversion to [int] is defined: the
    stored difference of a candidate is the integer part of 10000 times its
    distance ([float_key x] is the exact value of [x] times 2^1074), it is
    not negative, and the result is the first index of 16..255 that attains
    the least stored difference.

    Second part, an input on which this is not the nearest candidate.  With
    the routines of [libm_series], for (0,231,207) the distances of
    candidates 43 and 50 are 6.2578479... and 6.2578466..., less than 1e-4
    apart; both are stored as 62578; 50 has the least distance of all
    candidates, and 43, the earlier index, is returned. *)
Theorem choose_XTterm256_truncated_first_min :
  (forall (m : libm) (r g b : Z),
      (forall k, palette_index k ->
                 (Cdouble.of_int 10000 * choose_distance m r g b k <? 2147483648)%float
                 = true) ->
      let c := choose_XTterm256 m r g b in
      (forall k, palette_index k ->
                 choose_this_diff m r g b k
                 = float_key (Cdouble.of_int 10000 * choose_distance m r g b k)
                   / 2 ^ 1074
                 /\ 0 <= choose_this_diff m r g b k)
      /\ palette_index c
      /\ (forall k, palette_index k ->
                    choose_this_diff m r g b c <= choose_this_diff m r g b k)
      /\ (forall k, 16 <= k < c ->
                    choose_this_diff m r g b c < choose_this_diff m r g b k))
  /\ (choose_XTterm256 libm_series 0 231 207 = 43
      /\ choose_this_diff libm_series 0 231 207 43 = 62578
      /\ choose_this_diff libm_series 0 231 207 50 = 62578
      /\ (choose_distance libm_series 0 231 207 50
          <? choose_distance libm_series 0 231 207 43)%float = true
      /\ (choose_distance libm_series 0 231 207 43
          - choose_distance libm_series 0 231 207 50 <? 0.0001)%float = true
      /\ (forall k, palette_index k ->
                    (choose_distance libm_series 0 231 207 50
                     <=? choose_distance libm_series 0 231 207 k)%float = true)).
Proof.
  split.
  - intros m r g b Hdef. cbv zeta.
    assert (Hfloor : forall k, palette_index k ->
              choose_this_diff m r g b k
              = float_key (Cdouble.of_int 10000 * choose_distance m r g b k)
                / 2 ^ 1074
              /\ 0 <= choose_this_diff m r g b k).
    { intros k Hk. apply choose_this_diff_floor, Hdef, Hk. }
    split; [exact Hfloor|].
    rewrite choose_XTterm256_search.
    apply (search_first_min (choose_this_diff m r g b)).
    intros k Hk. apply Hfloor, Hk.
  - split; [vm_compute; reflexivity|].
    split; [vm_compute; reflexivity|].
    split; [vm_compute; reflexivity|].
    split; [vm_compute; reflexivity|].
    split; [vm_compute; reflexivity|].
    intros k Hk.
    apply (forallb_Zrange
             (fun k => (choose_distance libm_series 0 231 207 50
                        <=? choose_distance libm_series 0 231 207 k)%float)
             16 240).
    + vm_compute. reflexivity.
    + unfold palette_index in Hk. simpl. lia.
Qed.

Lemma choose_XTterm256_truncated_first_min_witness :
  let c := choose_XTterm256 libm_series 0 231 207 in
  (forall k, palette_index k ->
             choose_this_diff libm_series 0 231 207 k
             = float_key (Cdouble.of_int 10000 * choose_distance libm_series 0 231 207 k)
               / 2 ^ 1074
             /\ 0 <= choose_this_diff libm_series 0 231 207 k)
  /\ palette_index c
  /\ (forall k, palette_index k ->
                choose_this_diff libm_series 0 231 207 c
                <= choose_this_diff libm_series 0 231 207 k)
  /\ (forall k, 16 <= k < c ->
                choose_this_diff libm_series 0 231 207 c
                < choose_this_diff libm_series 0 231 207 k).
Proof.
  apply (proj1 choose_XTterm256_truncated_first_min libm_series 0 231 207).
  intros k Hk.
  apply (forallb_Zrange
           (fun k => (Cdouble.of_int 10000 * choose_distance libm_series 0 231 207 k
                      <? 2147483648)%float)
           16 240).
  - vm_compute. reflexivity.
  - unfold palette_index in Hk. simpl. lia.
Defined.
